(** * Contract scanner of the crypto-token-analyzer skill

    A shallow embedding of [scripts/scan_contract.py]: the source
    normaliser inside [fetch_contract_source], the pattern scanner
    [scan_for_patterns] over the [DANGEROUS_PATTERNS] catalogue, the
    ownership resolver [check_ownership_status] and the risk aggregator
    [calculate_risk_score], followed by the properties the design document
    states about them.

    Conventions.  A Python [str] is a Rocq [string], read as a sequence of
    code points below 256.  The HTTP exchange is outside the embedding: the
    functions that perform a request take the decoded reply as argument.
    Python's numbers are exact rationals here: every number the aggregator
    builds is a multiple of one half far below 2^52, which binary floating
    point represents and adds exactly. *)

From Stdlib Require Import ZArith QArith Qround String Ascii List Lia Bool.
From stdpp Require Import gmap strings list.

Set Warnings "-register-all".
Set Default Proof Using "Type".

Local Open Scope Z_scope.

(** ** Python helpers *)

Module Py.

(** [s * n] on strings. *)
Fixpoint str_repeat (s : string) (n : nat) : string :=
  match n with
  | O => EmptyString
  | S n' => s +:+ str_repeat s n'
  end.

(** [s[n:]] for [n >= 0]. *)
Fixpoint str_drop (n : nat) (s : string) : string :=
  match n, s with
  | O, _ => s
  | S _, EmptyString => EmptyString
  | S n', String _ s' => str_drop n' s'
  end.

(** [s[:n]] for [n >= 0]. *)
Fixpoint str_take (n : nat) (s : string) : string :=
  match n, s with
  | O, _ => EmptyString
  | S _, EmptyString => EmptyString
  | S n', String c s' => String c (str_take n' s')
  end.

(** [s[-n:]] for [n >= 1]: the last [n] characters, or all of [s] when it
    is shorter. *)
Definition str_last (n : nat) (s : string) : string :=
  str_drop (String.length s - n) s.

(** [s[1:-1]]. *)
Definition str_strip_ends (s : string) : string :=
  str_take (String.length s - 2) (str_drop 1 s).

(** [s.startswith(p)]. *)
Fixpoint startswith (p s : string) : bool :=
  match p, s with
  | EmptyString, _ => true
  | String _ _, EmptyString => false
  | String a p', String b s' => Ascii.eqb a b && startswith p' s'
  end.

(** [sep.join(l)]. *)
Fixpoint join (sep : string) (l : list string) : string :=
  match l with
  | [] => EmptyString
  | [x] => x
  | x :: rest => x +:+ sep +:+ join sep rest
  end.

(** [bool(l)] on lists. *)
Definition list_truthy {A} (l : list A) : bool :=
  match l with [] => false | _ => true end.

(** [bool(s)] on strings. *)
Definition str_truthy (s : string) : bool :=
  match s with EmptyString => false | _ => true end.

(** [int(x)] on a number: truncation towards zero. *)
Definition int (x : Q) : Z := Z.quot (Qnum x) (Z.pos (Qden x)).

End Py.

(** ** Data *)

(** An item of the list [re.findall] returns: the matched text, the text
    of the single group, or the tuple of the texts of all groups. *)
Inductive re_item :=
| ItemStr (s : string)
| ItemTuple (l : list string).

(** The dict appended to [findings[severity]]. *)
Record finding := Finding {
  name : string;
  description : string;
  occurrences : nat;
  sample : re_item
}.

(** The dict [ownership_info]. *)
Record ownership_info := OwnershipInfo {
  renounced : bool;
  current_owner : string;
  transfer_events : nat
}.

(** A log entry of the explorer's reply; [None] is an entry without the
    key ["topics"]. *)
Record log_event := LogEvent { topics : option (list string) }.

(** The decoded reply of the [getLogs] request: [data.get("status")] and
    [data.get("result")], [None] for an absent key. *)
Record logs_reply := LogsReply {
  status : option string;
  result : option (list log_event)
}.

(** ** Ownership resolver *)

Definition zero_topic : string := "0x" +:+ Py.str_repeat "0" 64.

(** [data.get("status") == "1"]. *)
Definition status_is_1 (st : option string) : bool :=
  match st with
  | Some st => String.eqb st "1"
  | None => false
  end.

Definition check_ownership_status (data : logs_reply) : ownership_info :=
  let ownership_info := OwnershipInfo false "Unknown" 0 in
  let events := default [] (result data) in
  if status_is_1 (status data) && Py.list_truthy events then
    let ownership_info :=
      OwnershipInfo (renounced ownership_info)
                    (current_owner ownership_info) (length events) in
    match last events with
    | Some last_event =>
        let topics := default [] (topics last_event) in
        if (3 <=? length topics)%nat then
          match topics !! 2%nat with
          | Some new_owner =>
              if String.eqb new_owner zero_topic then
                OwnershipInfo true
                  "0x0000000000000000000000000000000000000000"
                  (transfer_events ownership_info)
              else
                OwnershipInfo (renounced ownership_info)
                  ("0x" +:+ Py.str_last 40 new_owner)
                  (transfer_events ownership_info)
          | None => ownership_info
          end
        else ownership_info
    | None => ownership_info
    end
  else ownership_info.

(** ** Risk aggregator *)

Definition len_get (findings : gmap string (list finding)) (key : string) : Q :=
  inject_Z (Z.of_nat (length (default [] (findings !! key)))).

Definition calculate_risk_score (findings : gmap string (list finding))
    (is_verified : bool) (ownership : ownership_info) : Z * string :=
  let score : Q := 0%Q in
  let score := if negb is_verified then (score + 4)%Q else score in
  let score := if negb (renounced ownership) then (score + 2)%Q else score in
  let score := (score + len_get findings "critical" * 3)%Q in
  let score := (score + len_get findings "high" * (3 # 2))%Q in
  let score := (score + len_get findings "medium" * (1 # 2))%Q in
  let score := Z.min 10 (Z.max 1 (Py.int score)) in
  let level :=
    if 8 <=? score then "Critical"
    else if 6 <=? score then "High"
    else if 4 <=? score then "Medium"
    else "Low" in
  (score, level).

(** ** Outcomes of fallible code

    [Ok] is a normal return, [Raise] an exception that leaves the function,
    and [Beyond] marks an input the embedding does not cover (see
    [Json.loads] and [Re.findall]); no property below says what the code
    does on such an input. *)

Inductive exn :=
  JSONDecodeError | ValueError | AttributeError | TypeError | KeyError.

Inductive outcome (A : Type) :=
| Ok (a : A)
| Raise (e : exn)
| Beyond.
Arguments Ok {A} a.
Arguments Raise {A} e.
Arguments Beyond {A}.

Definition bind {A B} (m : outcome A) (k : A -> outcome B) : outcome B :=
  match m with
  | Ok a => k a
  | Raise e => Raise e
  | Beyond => Beyond
  end.

#[global] Instance outcome_bind : MBind outcome := fun A B k m => bind m k.
#[global] Instance outcome_ret : MRet outcome := fun A a => Ok a.

(** ** The JSON decoder [json.loads]

    The decoder follows CPython's scanner on strings of code points below
    256.  An integer literal of more than 4300 digits makes it raise
    [ValueError] at the literal, as the interpreter's limit on the
    conversion of integers does; [ValueError] is not a
    [JSONDecodeError].  Two kinds of document lie outside the embedding
    and decode to [Beyond]: one with a [\uXXXX] escape above 255, which has
    no counterpart in the string type, and one nested [max_depth]
    containers deep or more, where the interpreter's recursion limit
    decides whether the decoder goes on or raises [RecursionError]. *)

Module Json.

Inductive json :=
| JNull
| JBool (b : bool)
| JNum (lexeme : string)
| JStr (s : string)
| JArr (items : list json)
| JObj (members : list (string * json)).

(** A Python dict is the list of its items in insertion order, with
    distinct keys. *)
Fixpoint dict_get {V} (k : string) (d : list (string * V)) : option V :=
  match d with
  | [] => None
  | (k', v) :: rest => if String.eqb k k' then Some v else dict_get k rest
  end.

(** [d[k] = v]: a key already present keeps its position. *)
Fixpoint dict_set {V} (k : string) (v : V) (d : list (string * V))
    : list (string * V) :=
  match d with
  | [] => [(k, v)]
  | (k', v') :: rest =>
      if String.eqb k k' then (k', v) :: rest
      else (k', v') :: dict_set k v rest
  end.

Definition values {V} (d : list (string * V)) : list V := map snd d.

Definition max_depth : nat := 100.
Definition max_int_digits : nat := 4300.

Definition quote : ascii := "034"%char.
Definition backslash : ascii := "092"%char.

Definition is_ws (c : ascii) : bool :=
  match c with
  | " "%char | "009"%char | "010"%char | "013"%char => true
  | _ => false
  end.

Definition is_digit (c : ascii) : bool :=
  let n := nat_of_ascii c in (48 <=? n)%nat && (n <=? 57)%nat.

Definition hex_val (c : ascii) : option nat :=
  let n := nat_of_ascii c in
  if (48 <=? n)%nat && (n <=? 57)%nat then Some (n - 48)%nat
  else if (97 <=? n)%nat && (n <=? 102)%nat then Some (n - 87)%nat
  else if (65 <=? n)%nat && (n <=? 70)%nat then Some (n - 55)%nat
  else None.

Fixpoint skip_ws (s : string) : string :=
  match s with
  | String c rest => if is_ws c then skip_ws rest else s
  | EmptyString => s
  end.

(** Longest run of digits at the head of [s], and what follows it. *)
Fixpoint span_digits (s : string) : string * string :=
  match s with
  | String c rest =>
      if is_digit c then
        let '(ds, tl) := span_digits rest in (String c ds, tl)
      else (EmptyString, s)
  | EmptyString => (EmptyString, s)
  end.

(** The value of four hexadecimal digits. *)
Definition hex4 (a b c d : ascii) : option nat :=
  match hex_val a, hex_val b, hex_val c, hex_val d with
  | Some x, Some y, Some z, Some w =>
      Some (((x * 16 + y) * 16 + z) * 16 + w)%nat
  | _, _, _, _ => None
  end.

(** [scanstring] after the opening quote (strict mode). *)
Fixpoint scanstring (s : string) : outcome (string * string) :=
  match s with
  | EmptyString => Raise JSONDecodeError
  | String c rest =>
      if Ascii.eqb c quote then Ok (EmptyString, rest)
      else if Ascii.eqb c backslash then
        match rest with
        | EmptyString => Raise JSONDecodeError
        | String e rest' =>
            let lit (x : ascii) :=
              '(str, tl) ← scanstring rest'; Ok (String x str, tl) in
            if Ascii.eqb e quote then lit quote
            else if Ascii.eqb e backslash then lit backslash
            else match e with
            | "/"%char => lit "/"%char
            | "b"%char => lit "008"%char
            | "f"%char => lit "012"%char
            | "n"%char => lit "010"%char
            | "r"%char => lit "013"%char
            | "t"%char => lit "009"%char
            | "u"%char =>
                match rest' with
                | String h1 (String h2 (String h3 (String h4 rest4))) =>
                    match hex4 h1 h2 h3 h4 with
                    | Some n =>
                        if (n <? 256)%nat then
                          '(str, tl) ← scanstring rest4;
                          Ok (String (ascii_of_nat n) str, tl)
                        else Beyond
                    | None => Raise JSONDecodeError
                    end
                | _ => Raise JSONDecodeError
                end
            | _ => Raise JSONDecodeError
            end
        end
      else if (nat_of_ascii c <=? 31)%nat then Raise JSONDecodeError
      else '(str, tl) ← scanstring rest; Ok (String c str, tl)
  end.

(** [_match_number]: the lexeme of the number at the head of [s], what
    follows it, and whether it is an integer literal. *)
Definition match_number (s : string) : option (string * string * bool) :=
  let '(sign, s1) :=
    match s with
    | String "-"%char r => ("-", r)
    | _ => (EmptyString, s)
    end in
  let int_part :=
    match s1 with
    | String c r =>
        if Ascii.eqb c "0"%char then Some ("0", r)
        else if is_digit c then
          let '(ds, tl) := span_digits r in Some (String c ds, tl)
        else None
    | EmptyString => None
    end in
  match int_part with
  | None => None
  | Some (digits, s2) =>
      let '(frac, s3) :=
        match s2 with
        | String "."%char (String d r) =>
            if is_digit d then
              let '(ds, tl) := span_digits (String d r) in ("." +:+ ds, tl)
            else (EmptyString, s2)
        | _ => (EmptyString, s2)
        end in
      let '(expo, s4) :=
        match s3 with
        | String e r =>
            if Ascii.eqb e "e"%char || Ascii.eqb e "E"%char then
              let '(esign, r1) :=
                match r with
                | String "+"%char r' => ("+", r')
                | String "-"%char r' => ("-", r')
                | _ => (EmptyString, r)
                end in
              match span_digits r1 with
              | (EmptyString, _) => (EmptyString, s3)
              | (ds, tl) => (String e (esign +:+ ds), tl)
              end
            else (EmptyString, s3)
        | EmptyString => (EmptyString, s3)
        end in
      let is_int :=
        match frac, expo with
        | EmptyString, EmptyString => true
        | _, _ => false
        end in
      Some (sign +:+ digits +:+ frac +:+ expo, s4,
            is_int && (max_int_digits <? String.length digits)%nat)
  end.

Definition scan_number (s : string) : outcome (json * string) :=
  match match_number s with
  | None => Raise JSONDecodeError
  | Some (lexeme, tl, too_long) =>
      if too_long then Raise ValueError else Ok (JNum lexeme, tl)
  end.

(** A named constant [word] whose first character has been read. *)
Definition scan_constant (tail_of_word : string) (v : json) (s rest : string)
    : outcome (json * string) :=
  if Py.startswith tail_of_word rest
  then Ok (v, Py.str_drop (String.length tail_of_word) rest)
  else scan_number s.

(** [scan_once], with the loops of [_parse_object] and [_parse_array]
    entered at the point where a key, respectively an item, is read.
    [fuel] bounds the number of nested calls, [depth] counts the open
    containers. *)
Fixpoint scan_once (fuel depth : nat) (s : string) {struct fuel}
    : outcome (json * string) :=
  match fuel with
  | O => Beyond
  | S fuel' =>
      match s with
      | EmptyString => Raise JSONDecodeError
      | String c rest =>
          if Ascii.eqb c quote then
            '(str, tl) ← scanstring rest; Ok (JStr str, tl)
          else match c with
          | "{"%char =>
              if (max_depth <=? depth)%nat then Beyond
              else match skip_ws rest with
              | String "}"%char tl => Ok (JObj [], tl)
              | s1 => parse_object fuel' (S depth) [] s1
              end
          | "["%char =>
              if (max_depth <=? depth)%nat then Beyond
              else match skip_ws rest with
              | String "]"%char tl => Ok (JArr [], tl)
              | s1 => parse_array fuel' (S depth) [] s1
              end
          | "n"%char => scan_constant "ull" JNull s rest
          | "t"%char => scan_constant "rue" (JBool true) s rest
          | "f"%char => scan_constant "alse" (JBool false) s rest
          | "N"%char => scan_constant "aN" (JNum "NaN") s rest
          | "I"%char => scan_constant "nfinity" (JNum "Infinity") s rest
          | "-"%char => scan_constant "Infinity" (JNum "-Infinity") s rest
          | _ => scan_number s
          end
      end
  end
with parse_object (fuel depth : nat) (acc : list (string * json))
    (s : string) {struct fuel} : outcome (json * string) :=
  match fuel with
  | O => Beyond
  | S fuel' =>
      match s with
      | String c rest =>
          if Ascii.eqb c quote then
            '(key, s1) ← scanstring rest;
            match skip_ws s1 with
            | String ":"%char s2 =>
                '(val, s3) ← scan_once fuel' depth (skip_ws s2);
                let acc := dict_set key val acc in
                match skip_ws s3 with
                | String "}"%char tl => Ok (JObj acc, tl)
                | String ","%char s4 =>
                    parse_object fuel' depth acc (skip_ws s4)
                | _ => Raise JSONDecodeError
                end
            | _ => Raise JSONDecodeError
            end
          else Raise JSONDecodeError
      | EmptyString => Raise JSONDecodeError
      end
  end
with parse_array (fuel depth : nat) (acc : list json) (s : string)
    {struct fuel} : outcome (json * string) :=
  match fuel with
  | O => Beyond
  | S fuel' =>
      '(val, s1) ← scan_once fuel' depth s;
      let acc := acc ++ [val] in
      match skip_ws s1 with
      | String "]"%char tl => Ok (JArr acc, tl)
      | String ","%char s2 => parse_array fuel' depth acc (skip_ws s2)
      | _ => Raise JSONDecodeError
      end
  end.

(** [json.loads(s)] with the default decoder.  The fuel is more than the
    scanner can use on [s]. *)
Definition loads (s : string) : outcome json :=
  '(obj, tl) ← scan_once (2 * String.length s + 2) 0 (skip_ws s);
  match skip_ws tl with
  | EmptyString => Ok obj
  | String _ _ => Raise JSONDecodeError
  end.

End Json.

(** ** Source normaliser and [fetch_contract_source] *)

Definition newline : string := String "010"%char EmptyString.

(** [sources = source_json.get("sources", {})] followed by
    ["\n".join(src.get("content", "") for src in sources.values())].
    [join] first collects the generator, so a [src] without [get] raises
    before the type of any item is looked at. *)
Definition join_sources (source_json : Json.json) : outcome string :=
  match source_json with
  | Json.JObj members =>
      match default (Json.JObj []) (Json.dict_get "sources" members) with
      | Json.JObj sources =>
          items ← mapM (fun src =>
                     match src with
                     | Json.JObj m =>
                         Ok (default (Json.JStr "") (Json.dict_get "content" m))
                     | _ => Raise AttributeError
                     end) (Json.values sources);
          texts ← mapM (fun item =>
                     match item with
                     | Json.JStr s => Ok s
                     | _ => Raise TypeError
                     end) items;
          Ok (Py.join newline texts)
      | _ => Raise AttributeError
      end
  | _ => Raise AttributeError
  end.

(** One [try: ... except json.JSONDecodeError: pass] block: [text] is what
    is handed to [json.loads]. *)
Definition try_unwrap (source_code text : string) : outcome string :=
  match Json.loads text with
  | Ok source_json => join_sources source_json
  | Raise JSONDecodeError => Ok source_code
  | Raise e => Raise e
  | Beyond => Beyond
  end.

(** Lines 159-178: the handling of multi-file sources. *)
Definition normalize_source (source_code : string) : outcome string :=
  if Py.startswith "{{" source_code then
    try_unwrap source_code (Py.str_strip_ends source_code)
  else if Py.startswith "{" source_code then
    try_unwrap source_code source_code
  else Ok source_code.

(** An element of the [result] list of the [getsourcecode] reply. *)
Record source_entry := SourceEntry {
  SourceCode : option string;
  ContractName : option string
}.

Record source_reply := SourceReply {
  source_status : option string;
  source_result : option (list source_entry)
}.

Definition fetch_contract_source (data : source_reply)
    : outcome (bool * string * string) :=
  match default [] (source_result data) with
  | result :: _ =>
      if status_is_1 (source_status data) then
        let source_code := default "" (SourceCode result) in
        let contract_name := default "Unknown" (ContractName result) in
        source_code ← normalize_source source_code;
        let is_verified := Py.str_truthy source_code in
        Ok (is_verified, source_code, contract_name)
      else Ok (false, "", "")
  | [] => Ok (false, "", "")
  end.

(** ** The regular expressions of [re]

    The fragment of Python's pattern language the catalogue is written in:
    literals, [.], the classes [\s \w \d] and their complements, bracketed
    sets of characters and classes, capturing groups, alternation and the
    greedy quantifiers [* + ? {m} {m,} {m,n}].  [compile] refuses every
    other construct, and a quantified sub-pattern that can match the empty
    string, so nothing is said about a pattern outside the fragment. *)

Module Re.

Inductive set_item :=
| IChar (c : ascii)
| ISpace
| IWord
| IDigit.

Inductive regex :=
| Empty
| Chr (c : ascii)
| Any
| Set_ (negated : bool) (items : list set_item)
| Cat (r1 r2 : regex)
| Alt (r1 r2 : regex)
| Rep (lo : nat) (hi : option nat) (r : regex)
| Group (n : nat) (r : regex).

(** *** Parsing *)

Definition is_digit (c : ascii) : bool :=
  let n := nat_of_ascii c in (48 <=? n)%nat && (n <=? 57)%nat.

Definition is_ascii_alpha (c : ascii) : bool :=
  let n := nat_of_ascii c in
  ((65 <=? n)%nat && (n <=? 90)%nat) || ((97 <=? n)%nat && (n <=? 122)%nat).

Definition is_ascii (c : ascii) : bool := (nat_of_ascii c <? 128)%nat.

(** Characters with a meaning of their own outside a set. *)
Definition is_special (c : ascii) : bool :=
  match c with
  | "."%char | "^"%char | "$"%char | "*"%char | "+"%char | "?"%char
  | "{"%char | "}"%char | "["%char | "]"%char | "("%char | ")"%char
  | "|"%char | "\"%char => true
  | _ => false
  end.

(** The character after a backslash. *)
Definition parse_escape (e : ascii) : option regex :=
  match e with
  | "s"%char => Some (Set_ false [ISpace])
  | "w"%char => Some (Set_ false [IWord])
  | "d"%char => Some (Set_ false [IDigit])
  | "S"%char => Some (Set_ true [ISpace])
  | "W"%char => Some (Set_ true [IWord])
  | "D"%char => Some (Set_ true [IDigit])
  | "n"%char => Some (Chr "010"%char)
  | "r"%char => Some (Chr "013"%char)
  | "t"%char => Some (Chr "009"%char)
  | _ =>
      if is_ascii e && negb (is_ascii_alpha e) && negb (is_digit e)
      then Some (Chr e) else None
  end.

(** The items of a set up to its closing bracket. *)
Fixpoint parse_set_items (s : string) : option (list set_item * string) :=
  match s with
  | EmptyString => None
  | String "]"%char rest => Some ([], rest)
  | String "-"%char _ => None
  | String "["%char _ => None
  | String "\"%char (String e rest) =>
      it ← match e with
           | "s"%char => Some ISpace
           | "w"%char => Some IWord
           | "d"%char => Some IDigit
           | _ =>
               if is_ascii e && negb (is_ascii_alpha e) && negb (is_digit e)
               then Some (IChar e) else None
           end;
      '(its, tl) ← parse_set_items rest;
      Some (it :: its, tl)
  | String "\"%char EmptyString => None
  | String c rest =>
      '(its, tl) ← parse_set_items rest;
      Some (IChar c :: its, tl)
  end.

Definition parse_set (s : string) : option (regex * string) :=
  let '(negated, s1) :=
    match s with
    | String "^"%char r => (true, r)
    | _ => (false, s)
    end in
  match s1 with
  | String "]"%char _ => None
  | _ => '(its, tl) ← parse_set_items s1; Some (Set_ negated its, tl)
  end.

Fixpoint span_digits (s : string) : string * string :=
  match s with
  | String c rest =>
      if is_digit c then
        let '(ds, tl) := span_digits rest in (String c ds, tl)
      else (EmptyString, s)
  | EmptyString => (EmptyString, s)
  end.

Fixpoint nat_of_digits (acc : nat) (ds : string) : nat :=
  match ds with
  | EmptyString => acc
  | String c rest => nat_of_digits (10 * acc + (nat_of_ascii c - 48)) rest
  end.

(** The bounds of the quantifier at the head of [s], if there is one. *)
Definition parse_quant (s : string)
    : option (option (nat * option nat) * string) :=
  match s with
  | String "*"%char rest => Some (Some (0, None), rest)%nat
  | String "+"%char rest => Some (Some (1, None), rest)%nat
  | String "?"%char rest => Some (Some (0, Some 1), rest)%nat
  | String "{"%char rest =>
      match span_digits rest with
      | (EmptyString, _) => None
      | (lo, String "}"%char tl) =>
          Some (Some (nat_of_digits 0 lo, Some (nat_of_digits 0 lo)), tl)
      | (lo, String ","%char tl) =>
          match span_digits tl with
          | (EmptyString, String "}"%char tl') =>
              Some (Some (nat_of_digits 0 lo, None), tl')
          | (hi, String "}"%char tl') =>
              if (nat_of_digits 0 lo <=? nat_of_digits 0 hi)%nat
              then Some (Some (nat_of_digits 0 lo,
                               Some (nat_of_digits 0 hi)), tl')
              else None
          | _ => None
          end
      | _ => None
      end
  | _ => Some (None, s)
  end.

(** A quantifier may not be followed by a second one, nor by the [?] or
    [+] that would make it lazy or possessive. *)
Definition quantify (atom : regex) (s : string) : option (regex * string) :=
  '(q, tl) ← parse_quant s;
  match q with
  | None => Some (atom, tl)
  | Some (lo, hi) =>
      match tl with
      | String "*"%char _ | String "+"%char _ | String "?"%char _
      | String "{"%char _ => None
      | _ => Some (Rep lo hi atom, tl)
      end
  end.

(** [g] is the number of groups opened so far. *)
Fixpoint parse_alt (fuel g : nat) (s : string) {struct fuel}
    : option (regex * nat * string) :=
  match fuel with
  | O => None
  | S fuel' =>
      '(r1, g1, s1) ← parse_seq fuel' g s;
      match s1 with
      | String "|"%char s2 =>
          '(r2, g2, s3) ← parse_alt fuel' g1 s2;
          Some (Alt r1 r2, g2, s3)
      | _ => Some (r1, g1, s1)
      end
  end
with parse_seq (fuel g : nat) (s : string) {struct fuel}
    : option (regex * nat * string) :=
  match fuel with
  | O => None
  | S fuel' =>
      match s with
      | EmptyString | String "|"%char _ | String ")"%char _ =>
          Some (Empty, g, s)
      | _ =>
          '(atom, g1, s1) ← parse_atom fuel' g s;
          '(item, s2) ← quantify atom s1;
          '(rest, g2, s3) ← parse_seq fuel' g1 s2;
          Some (Cat item rest, g2, s3)
      end
  end
with parse_atom (fuel g : nat) (s : string) {struct fuel}
    : option (regex * nat * string) :=
  match fuel with
  | O => None
  | S fuel' =>
      match s with
      | EmptyString => None
      | String "("%char (String "?"%char _) => None
      | String "("%char s1 =>
          '(r, g1, s2) ← parse_alt fuel' (S g) s1;
          match s2 with
          | String ")"%char s3 => Some (Group (S g) r, g1, s3)
          | _ => None
          end
      | String "["%char s1 =>
          '(r, s2) ← parse_set s1; Some (r, g, s2)
      | String "\"%char (String e s1) =>
          r ← parse_escape e; Some (r, g, s1)
      | String "."%char s1 => Some (Any, g, s1)
      | String c s1 =>
          if is_special c then None else Some (Chr c, g, s1)
      end
  end.

Fixpoint nullable (r : regex) : bool :=
  match r with
  | Empty => true
  | Chr _ | Any | Set_ _ _ => false
  | Cat r1 r2 => nullable r1 && nullable r2
  | Alt r1 r2 => nullable r1 || nullable r2
  | Rep lo _ r' => (lo =? 0)%nat || nullable r'
  | Group _ r' => nullable r'
  end.

(** No quantified sub-pattern can match the empty string. *)
Fixpoint well_formed (r : regex) : bool :=
  match r with
  | Empty | Chr _ | Any | Set_ _ _ => true
  | Cat r1 r2 | Alt r1 r2 => well_formed r1 && well_formed r2
  | Rep _ _ r' => negb (nullable r') && well_formed r'
  | Group _ r' => well_formed r'
  end.

(** The pattern and the number of its groups. *)
Definition compile (pattern : string) : option (regex * nat) :=
  match parse_alt (3 * String.length pattern + 3) 0 pattern with
  | Some (r, g, EmptyString) => if well_formed r then Some (r, g) else None
  | _ => None
  end.

(** *** Characters

    The tables of [str] patterns on code points below 256. *)

Definition in_range (lo hi n : nat) : bool := (lo <=? n)%nat && (n <=? hi)%nat.

(** Lower-case mapping. *)
Definition lower (c : ascii) : ascii :=
  let n := nat_of_ascii c in
  if in_range 65 90 n || in_range 192 214 n || in_range 216 222 n
  then ascii_of_nat (n + 32) else c.

(** [\s]. *)
Definition is_space (c : ascii) : bool :=
  let n := nat_of_ascii c in
  in_range 9 13 n || in_range 28 32 n || (n =? 133)%nat || (n =? 160)%nat.

(** [\w]: alphanumeric or underscore. *)
Definition is_word (c : ascii) : bool :=
  let n := nat_of_ascii c in
  in_range 48 57 n || in_range 65 90 n || (n =? 95)%nat || in_range 97 122 n
  || (n =? 170)%nat || in_range 178 179 n || (n =? 181)%nat
  || in_range 185 186 n || in_range 188 190 n
  || in_range 192 214 n || in_range 216 246 n || in_range 248 255 n.

Definition char_eq (ignorecase : bool) (p x : ascii) : bool :=
  if ignorecase then Ascii.eqb (lower p) (lower x) else Ascii.eqb p x.

Definition item_has (ignorecase : bool) (it : set_item) (x : ascii) : bool :=
  match it with
  | IChar p => char_eq ignorecase p x
  | ISpace => is_space x
  | IWord => is_word x
  | IDigit => is_digit x
  end.

Definition in_set (ignorecase negated : bool) (items : list set_item)
    (x : ascii) : bool :=
  xorb negated (existsb (fun it => item_has ignorecase it x) items).

(** *** Backtracking matcher *)

(** The text of each group that took part in the match, most recent
    first. *)
Definition caps := list (nat * string).

Fixpoint group (n : nat) (c : caps) : option string :=
  match c with
  | [] => None
  | (n', txt) :: rest => if (n =? n')%nat then Some txt else group n rest
  end.

(** What was read between [s] and its suffix [s']. *)
Definition consumed (s s' : string) : string :=
  Py.str_take (String.length s - String.length s') s.

Definition under (hi : option nat) (count : nat) : bool :=
  match hi with
  | None => true
  | Some h => (count <? h)%nat
  end.

(** [run ic r s c k]: match [r] at the head of [s] with the groups [c]
    so far, and hand what is left to the continuation [k]; alternatives
    are tried in the order of the pattern and repetition is greedy. *)
Fixpoint run (ic : bool) (r : regex) (s : string) (c : caps)
    (k : string -> caps -> option (string * caps)) {struct r}
    : option (string * caps) :=
  match r with
  | Empty => k s c
  | Chr p =>
      match s with
      | String x s' => if char_eq ic p x then k s' c else None
      | EmptyString => None
      end
  | Any =>
      match s with
      | String x s' => if Ascii.eqb x "010"%char then None else k s' c
      | EmptyString => None
      end
  | Set_ negated items =>
      match s with
      | String x s' => if in_set ic negated items x then k s' c else None
      | EmptyString => None
      end
  | Cat r1 r2 => run ic r1 s c (fun s1 c1 => run ic r2 s1 c1 k)
  | Alt r1 r2 =>
      match run ic r1 s c k with
      | Some res => Some res
      | None => run ic r2 s c k
      end
  | Group n r' =>
      run ic r' s c (fun s1 c1 => k s1 ((n, consumed s s1) :: c1))
  | Rep lo hi r' =>
      (fix loop (fuel count : nat) (s : string) (c : caps) {struct fuel}
          : option (string * caps) :=
         let more :=
           match fuel with
           | O => None
           | S fuel' =>
               if under hi count then
                 run ic r' s c (fun s1 c1 =>
                   if (String.length s1 <? String.length s)%nat
                   then loop fuel' (S count) s1 c1 else None)
               else None
           end in
         match more with
         | Some res => Some res
         | None => if (lo <=? count)%nat then k s c else None
         end) (String.length s) 0%nat s c
  end.

(** A match: where it starts, its text, its groups. *)
Record match_ := Match {
  m_start : nat;
  m_text : string;
  m_groups : caps
}.

Definition m_end (m : match_) : nat :=
  (m_start m + String.length (m_text m))%nat.

(** A match at the head of [s]; with [must_advance] an empty one is
    refused. *)
Definition match_at (ic : bool) (r : regex) (s : string)
    (must_advance : bool) : option (string * caps) :=
  run ic r s [] (fun s' c' =>
    if must_advance && (String.length s' =? String.length s)%nat
    then None else Some (s', c')).

(** The leftmost match in [s], which starts at offset [pos] of the text,
    and what follows it. *)
Fixpoint search (ic : bool) (r : regex) (s : string) (must_advance : bool)
    (pos : nat) : option (match_ * string) :=
  match match_at ic r s must_advance with
  | Some (s', c') => Some (Match pos (consumed s s') c', s')
  | None =>
      match s with
      | EmptyString => None
      | String _ rest => search ic r rest false (S pos)
      end
  end.

(** The loop of [findall] and [finditer]: each search starts where the
    previous match ended, and must advance after an empty match. *)
Fixpoint scan (fuel : nat) (ic : bool) (r : regex) (s : string)
    (must_advance : bool) (pos : nat) : list match_ :=
  match fuel with
  | O => []
  | S fuel' =>
      match search ic r s must_advance pos with
      | None => []
      | Some (m, rest) =>
          m :: scan fuel' ic r rest
                 (String.length (m_text m) =? 0)%nat (m_end m)
      end
  end.

Definition finditer (ic : bool) (r : regex) (text : string) : list match_ :=
  scan (2 * String.length text + 2) ic r text false 0%nat.

(** The item [findall] returns for a match of a pattern with [g]
    groups; a group that took no part in the match gives [""]. *)
Definition item (g : nat) (m : match_) : re_item :=
  let text_of n := default EmptyString (group n (m_groups m)) in
  match g with
  | 0%nat => ItemStr (m_text m)
  | 1%nat => ItemStr (text_of 1%nat)
  | _ => ItemTuple (map text_of (seq 1 g))
  end.

(** [re.findall(pattern, text, re.IGNORECASE)] when [ignorecase] is set,
    [re.findall(pattern, text)] otherwise. *)
Definition findall (pattern text : string) (ignorecase : bool)
    : outcome (list re_item) :=
  match compile pattern with
  | Some (r, g) => Ok (map (item g) (finditer ignorecase r text))
  | None => Beyond
  end.

End Re.

(** ** Signature catalogue *)

Record pattern_info := PatternInfo {
  pi_name : string;
  pi_pattern : string;
  pi_description : string
}.

(** The dict [DANGEROUS_PATTERNS], as the list of its items. *)
Definition DANGEROUS_PATTERNS : list (string * list pattern_info) := [
  ("critical", [
     PatternInfo "Hidden Mint"
       "function\s+\w*[Mm]int\w*\s*\([^)]*\)\s*(external|public|internal)"
       "Owner can create unlimited tokens";
     PatternInfo "Honeypot - Transfer Block"
       "require\s*\(\s*\w+\s*==\s*owner|require\s*\(\s*msg\.sender\s*==\s*owner"
       "Transfer may be restricted to owner only";
     PatternInfo "Blacklist Function"
       "function\s+\w*[Bb]lacklist\w*|mapping\s*\([^)]*\)\s*(public|private|internal)?\s*\w*[Bb]lacklist"
       "Contract can blacklist addresses from trading";
     PatternInfo "Self-Destruct"
       "selfdestruct\s*\(|suicide\s*\("
       "Contract can be destroyed, potentially stealing funds";
     PatternInfo "Delegatecall"
       "\.delegatecall\s*\("
       "Can execute arbitrary code from external contract"
   ]);
  ("high", [
     PatternInfo "Ownership Not Renounced"
       "function\s+renounceOwnership|Ownable|owner\s*\(\s*\)"
       "Contract has owner privileges (check if renounced)";
     PatternInfo "Pause Function"
       "function\s+pause\s*\(|whenNotPaused|Pausable"
       "Trading can be paused by owner";
     PatternInfo "Max Transaction Limit"
       "maxTx|_maxTxAmount|maxTransactionAmount"
       "Transaction limits can trap buyers";
     PatternInfo "High Tax/Fee"
       "(tax|fee|Tax|Fee)\s*=\s*(\d{2,})|setTax|setFee"
       "Adjustable fees could be set extremely high";
     PatternInfo "External Call in Transfer"
       "function\s+_transfer[^}]+\.call\{"
       "External calls during transfer can be exploited"
   ]);
  ("medium", [
     PatternInfo "Proxy Pattern"
       "Proxy|upgradeable|implementation|_implementation"
       "Upgradeable contract - logic can be changed";
     PatternInfo "Anti-Bot Measures"
       "antiBot|_isBot|botWallet|sniper"
       "Anti-bot code can be used to block legitimate users";
     PatternInfo "Cooldown Period"
       "cooldown|_cooldown|buyCooldown|sellCooldown"
       "Trading cooldowns can prevent selling";
     PatternInfo "Max Wallet Limit"
       "maxWallet|_maxWalletSize|maxWalletAmount"
       "Wallet limits can restrict accumulation"
   ]);
  ("info", [
     PatternInfo "Reflection/Rewards"
       "reflect|_rOwned|_tOwned|dividend"
       "Reflection mechanism (complex tokenomics)";
     PatternInfo "Liquidity Generation"
       "swapAndLiquify|addLiquidity|_swapTokensForEth"
       "Auto-liquidity feature";
     PatternInfo "Marketing Wallet"
       "marketingWallet|_marketingAddress|marketingFee"
       "Marketing fee collection"
   ])
].

(** ** Pattern scanner *)

(** The body of the inner loop: one rule applied to the text. *)
Definition scan_rule (source_code severity : string)
    (findings : gmap string (list finding)) (pattern_info : pattern_info)
    : outcome (gmap string (list finding)) :=
  matches ← Re.findall (pi_pattern pattern_info) source_code true;
  match matches with
  | [] => Ok findings
  | first :: _ =>
      match findings !! severity with
      | Some l =>
          Ok (<[severity :=
                  l ++ [Finding (pi_name pattern_info)
                                (pi_description pattern_info)
                                (length matches) first]]> findings)
      | None => Raise KeyError
      end
  end.

(** A [for] loop whose body may raise. *)
Fixpoint for_each {A S} (body : S -> A -> outcome S) (l : list A) (st : S)
    : outcome S :=
  match l with
  | [] => Ok st
  | x :: rest => st' ← body st x; for_each body rest st'
  end.

Definition scan_for_patterns (source_code : string)
    : outcome (gmap string (list finding)) :=
  let findings : gmap string (list finding) :=
    <["info" := []]> (<["medium" := []]> (<["high" := []]>
      (<["critical" := []]> ∅))) in
  for_each (fun findings '(severity, patterns) =>
              for_each (scan_rule source_code severity) patterns findings)
           DANGEROUS_PATTERNS findings.

(** ** The design document's vocabulary

    The statuses, weights, ladder and matches of the design document,
    defined after its words and not after the code, and the names the
    theorems need to speak about both. *)

(** The three-valued ownership status. *)
Inductive OwnershipStatus :=
| Renounced
| HeldBy (address : string)
| Unknown.

(** How the dict [ownership_info] is read as a status. *)
Definition status_of (o : ownership_info) : OwnershipStatus :=
  if renounced o then Renounced
  else if String.eqb (current_owner o) "Unknown" then Unknown
  else HeldBy (current_owner o).

(** "The last 40 hex characters of that topic" and "40 hex zero
    characters". *)
Definition new_owner_address (topic : string) : string := Py.str_last 40 topic.
Definition zero_address : string := Py.str_repeat "0" 40.

(** A topic that encodes an address: [0x], twelve zero bytes, the
    address. *)
Definition address_topic (address : string) : string :=
  "0x" +:+ Py.str_repeat "0" 24 +:+ address.

(** "+w per Finding": one addition for each element of the list. *)
Definition per_finding (w : Q) (l : list finding) (acc : Q) : Q :=
  fold_left (fun a _ => (a + w)%Q) l acc.

(** "Truncated to an integer". *)
Definition truncate (x : Q) : Z :=
  if Qle_bool 0 x then Qfloor x else Qceiling x.

(** "Clamped to the closed range [lo,hi]". *)
Definition clamp (lo hi x : Z) : Z :=
  if x <? lo then lo else if hi <? x then hi else x.

Definition spec_raw_sum (is_verified : bool) (ownership : OwnershipStatus)
    (critical high medium info : list finding) : Q :=
  let base := 0%Q in
  let s := if is_verified then base else (base + 4)%Q in
  let s := match ownership with
           | Renounced => s
           | HeldBy _ | Unknown => (s + 2)%Q
           end in
  per_finding 0 info
    (per_finding (1 # 2) medium
       (per_finding (3 # 2) high
          (per_finding 3 critical s))).

Definition spec_risk_score (is_verified : bool) (ownership : OwnershipStatus)
    (critical high medium info : list finding) : Z :=
  clamp 1 10
    (truncate (spec_raw_sum is_verified ownership critical high medium info)).

Inductive RiskCategory := Low | Medium | High | Critical.

Definition category_name (c : RiskCategory) : string :=
  match c with
  | Low => "Low"
  | Medium => "Medium"
  | High => "High"
  | Critical => "Critical"
  end.

(** "≥8 Critical, ≥6 High, ≥4 Medium, else Low". *)
Definition ladder (score : Z) : RiskCategory :=
  if 8 <=? score then Critical
  else if 6 <=? score then High
  else if 4 <=? score then Medium
  else Low.

(** The list under a severity, [findings.get(severity, [])]. *)
Definition tier (findings : gmap string (list finding)) (severity : string)
    : list finding :=
  default [] (findings !! severity).

(** A Finding with one more occurrence of its rule. *)
Definition one_more (f : finding) : finding :=
  Finding (name f) (description f) (S (occurrences f)) (sample f).

(** The number of non-overlapping matches of a pattern in a text: matches
    are counted from left to right, each search starting where the previous
    match ended. *)
Fixpoint count_from (fuel : nat) (ic : bool) (r : Re.regex) (s : string)
    (must_advance : bool) : nat :=
  match fuel with
  | O => O
  | S fuel' =>
      match Re.search ic r s must_advance 0 with
      | None => O
      | Some (m, rest) =>
          S (count_from fuel' ic r rest (String.length (Re.m_text m) =? 0)%nat)
      end
  end.

Definition count_matches (ic : bool) (r : Re.regex) (text : string) : nat :=
  count_from (2 * String.length text + 2) ic r text false.

(** The first match of a pattern in a text. *)
Definition first_match (ic : bool) (r : Re.regex) (text : string)
    : option string :=
  match Re.search ic r text false 0 with
  | Some (m, _) => Some (Re.m_text m)
  | None => None
  end.

(** [tiled pos s ms]: the matches [ms] lie in [s], which starts at offset
    [pos] of the text, from left to right and without overlap, and each
    carries the text found at its offset. *)
Inductive tiled : nat -> string -> list Re.match_ -> Prop :=
| tiled_nil pos s : tiled pos s []
| tiled_cons pos gap m rest ms :
    Re.m_start m = (pos + String.length gap)%nat ->
    tiled (Re.m_end m) rest ms ->
    tiled pos (gap +:+ Re.m_text m +:+ rest) (m :: ms).

(** The Finding a rule contributes for a text, if any. *)
Definition finding_for (text : string) (rule : pattern_info) : option finding :=
  match Re.compile (pi_pattern rule) with
  | Some (r, g) =>
      match Re.finditer true r text with
      | [] => None
      | m :: ms =>
          Some (Finding (pi_name rule) (pi_description rule)
                        (length (m :: ms)) (Re.item g m))
      end
  | None => None
  end.

(** A wrapper is detected in [source_code] and [json.loads] answers [v] on
    the text handed to it. *)
Definition wrapper_decodes (source_code : string) (v : outcome Json.json)
    : Prop :=
  (Py.startswith "{{" source_code = true
   /\ Json.loads (Py.str_strip_ends source_code) = v)
  \/ (Py.startswith "{{" source_code = false
      /\ Py.startswith "{" source_code = true
      /\ Json.loads source_code = v).

(** Every file of [sources] is a record with a string under ["content"],
    and [contents] lists these strings in the order of the map. *)
Definition has_contents (sources : list (string * Json.json))
    (contents : list string) : Prop :=
  Forall2 (fun file text =>
             exists m, file.2 = Json.JObj m
                       /\ Json.dict_get "content" m = Some (Json.JStr text))
          sources contents.

(** Every file of [sources] is a record without ["content"]. *)
Definition lacks_contents (sources : list (string * Json.json)) : Prop :=
  Forall (fun file =>
            exists m, file.2 = Json.JObj m
                      /\ Json.dict_get "content" m = None)
         sources.

(** A JSON string literal. *)
Definition dq (s : string) : string :=
  String Json.quote (s +:+ String Json.quote EmptyString).

(** The single-file wrapper [{"sources":{"A.sol":{"content":"X"}}}]. *)
Definition single_file_wrapper : string :=
  "{" +:+ dq "sources" +:+ ":{" +:+ dq "A.sol" +:+ ":{" +:+ dq "content"
      +:+ ":" +:+ dq "X" +:+ "}}}".

(** The wrapper [{"sources":{"A.sol":{},"B.sol":{}}}]: two files, neither
    with a content. *)
Definition two_empty_files : string :=
  "{" +:+ dq "sources" +:+ ":{" +:+ dq "A.sol" +:+ ":{}," +:+ dq "B.sol"
      +:+ ":{}}}".

(** ** Auxiliary notions of the proofs *)

(** [s'] is what is left of [s] after a prefix. *)
Definition suffix_of (s' s : string) : Prop := exists p, s = p +:+ s'.

(** What a search can still need: twice the length of the text, and one
    more unless the search must advance. *)
Definition budget (s : string) (ma : bool) : nat :=
  (2 * String.length s + (if ma then 0 else 1))%nat.

(** The loop [run] enters at a quantifier, with its fuel as a parameter. *)
Fixpoint rep_loop (ic : bool) (lo : nat) (hi : option nat) (r' : Re.regex)
    (k : string -> Re.caps -> option (string * Re.caps))
    (fuel count : nat) (s : string) (c : Re.caps) {struct fuel}
    : option (string * Re.caps) :=
  let more :=
    match fuel with
    | O => None
    | S fuel' =>
        if Re.under hi count then
          Re.run ic r' s c (fun s1 c1 =>
            if (String.length s1 <? String.length s)%nat
            then rep_loop ic lo hi r' k fuel' (S count) s1 c1 else None)
        else None
    end in
  match more with
  | Some res => Some res
  | None => if (lo <=? count)%nat then k s c else None
  end.

(** A container after its opening bracket: empty, or handed to the loop. *)
Definition opened (close : ascii) (rest : string)
    (loop : string -> outcome (Json.json * string)) (empty : Json.json)
    : outcome (Json.json * string) :=
  match Json.skip_ws rest with
  | EmptyString => loop EmptyString
  | String c tl =>
      if Ascii.eqb c close then Ok (empty, tl) else loop (String c tl)
  end.

(** What follows a value inside a container: the closing bracket, or a
    comma and the rest of the loop. *)
Definition closing (close : ascii) (s : string) (done : Json.json)
    (loop : string -> outcome (Json.json * string)) : outcome (Json.json * string) :=
  match Json.skip_ws s with
  | EmptyString => Raise JSONDecodeError
  | String c tl =>
      if Ascii.eqb c close then Ok (done, tl)
      else if Ascii.eqb c "," then loop (Json.skip_ws tl)
      else Raise JSONDecodeError
  end.

(** A member of an object after its key. *)
Definition member (s1 : string)
    (value : string -> outcome (Json.json * string))
    (after : Json.json -> string -> outcome (Json.json * string))
    : outcome (Json.json * string) :=
  match Json.skip_ws s1 with
  | EmptyString => Raise JSONDecodeError
  | String c s2 =>
      if Ascii.eqb c ":" then
        value (Json.skip_ws s2) ≫= fun '(val, s3) => after val s3
      else Raise JSONDecodeError
  end.

(** The concatenation of a list of strings. *)
Definition str_concat (ws : list string) : string :=
  fold_right String.append EmptyString ws.

(** [count] repetitions are allowed by the upper bound [hi]. *)
Definition within (hi : option nat) (count : nat) : Prop :=
  match hi with
  | None => True
  | Some h => (count <= h)%nat
  end.

(** The strings a pattern denotes, whatever the order in which a matcher
    tries them. *)
Fixpoint lang (ic : bool) (r : Re.regex) (w : string) : Prop :=
  match r with
  | Re.Empty => w = EmptyString
  | Re.Chr p => exists x, w = String x EmptyString /\ Re.char_eq ic p x = true
  | Re.Any => exists x, w = String x EmptyString /\ x <> "010"%char
  | Re.Set_ negated items =>
      exists x, w = String x EmptyString
                /\ Re.in_set ic negated items x = true
  | Re.Cat r1 r2 =>
      exists w1 w2, w = w1 +:+ w2 /\ lang ic r1 w1 /\ lang ic r2 w2
  | Re.Alt r1 r2 => lang ic r1 w \/ lang ic r2 w
  | Re.Rep lo hi r' =>
      exists ws, w = str_concat ws /\ Forall (lang ic r') ws
                 /\ (lo <= length ws)%nat /\ within hi (length ws)
  | Re.Group _ r' => lang ic r' w
  end.

(** The pattern has a match somewhere in the text. *)
Definition occurs (ic : bool) (r : Re.regex) (text : string) : Prop :=
  exists pre w post, text = pre +:+ w +:+ post /\ lang ic r w.

(** The pattern of a rule is in the fragment [compile] accepts. *)
Definition compiles (rule : pattern_info) : Prop :=
  is_Some (Re.compile (pi_pattern rule)).

Definition compilesb (rule : pattern_info) : bool :=
  match Re.compile (pi_pattern rule) with Some _ => true | None => false end.

(** The dict [findings] before the loops. *)
Definition initial_findings : gmap string (list finding) :=
  <["info" := []]> (<["medium" := []]> (<["high" := []]>
    (<["critical" := []]> ∅))).

(** What the outer loop of the scanner leaves in the dict. *)
Definition scanned (text : string) (cat : list (string * list pattern_info))
    (findings : gmap string (list finding)) : gmap string (list finding) :=
  foldl (fun fs '(sev, rules) =>
           <[sev := tier fs sev ++ omap (finding_for text) rules]> fs)
        findings cat.

(** Twice the part of the score owed to the verification flag and to the
    ownership. *)
Definition base2 (is_verified renounced : bool) : Z :=
  (if is_verified then 0 else 8) + (if renounced then 0 else 4).

(** The signature of [OwnershipTransferred], the first topic of the events
    the resolver asks for. *)
Definition transfer_signature : string :=
  "0x8be0079c531659141344cd1fd0a4f28419497f9722a3daafe3b4186f6b6457e0".

(** A success reply that carries one event with the given topics. *)
Definition single_event (topics : list string) : logs_reply :=
  LogsReply (Some "1") (Some [LogEvent (Some topics)]).

(** The reply the resolver gives when no log was found. *)
Definition unknown_owner : ownership_info := OwnershipInfo false "Unknown" 0.

(** ** The rest of the script *)

(** An entry of [CHAIN_APIS]. *)
Record chain_api := ChainApi {
  explorer : string;
  api_key_env : string
}.

(** The dict [CHAIN_APIS], as the list of its items. *)
Definition CHAIN_APIS : list (string * chain_api) := [
  ("eth", ChainApi "https://api.etherscan.io/api" "ETHERSCAN_API_KEY");
  ("bsc", ChainApi "https://api.bscscan.com/api" "BSCSCAN_API_KEY");
  ("polygon", ChainApi "https://api.polygonscan.com/api" "POLYGONSCAN_API_KEY")
].

(** [get_api_key(chain)], with [os.environ] as argument. *)
Definition get_api_key (environ : gmap string string) (chain : string)
    : outcome string :=
  match Json.dict_get chain CHAIN_APIS with
  | Some api => Ok (default "" (environ !! api_key_env api))
  | None => Raise KeyError
  end.

(** The dict [result] that [main] builds, without its time stamp. *)
Record scan_result := ScanResult {
  res_token : string;
  res_chain : string;
  res_contract_name : string;
  res_is_verified : bool;
  res_ownership : ownership_info;
  res_findings : gmap string (list finding);
  res_risk_score : Z;
  res_risk_level : string
}.

(** The [try] block of [main] up to the dict [result]: [token] and [chain]
    are the arguments of the command line, and the two replies are what
    the explorer answers to [fetch_contract_source] and to
    [check_ownership_status].  An exception raised on the way leaves
    [main]: only [requests.RequestException] is caught there. *)
Definition main (token chain : string) (source_data : source_reply)
    (logs_data : logs_reply) : outcome scan_result :=
  '(is_verified, source_code, contract_name) ←
    fetch_contract_source source_data;
  findings ← (if Py.str_truthy source_code
              then scan_for_patterns source_code
              else Ok ∅);
  let ownership := check_ownership_status logs_data in
  let '(risk_score, risk_level) :=
    calculate_risk_score findings is_verified ownership in
  Ok (ScanResult token chain contract_name is_verified ownership findings
                 risk_score risk_level).

(** ** Further notions of the proofs *)

(** [s.lower()] on a string of code points below 256, where it maps one
    character to one.  (On other strings it need not: U+0130 becomes two
    characters.) *)
Fixpoint str_lower (s : string) : string :=
  match s with
  | EmptyString => EmptyString
  | String c rest => String (Re.lower c) (str_lower rest)
  end.

Definition caps_lower (c : Re.caps) : Re.caps :=
  map (fun '(n, txt) => (n, str_lower txt)) c.

Definition match_lower (m : Re.match_) : Re.match_ :=
  Re.Match (Re.m_start m) (str_lower (Re.m_text m)) (caps_lower (Re.m_groups m)).

Definition item_lower (i : re_item) : re_item :=
  match i with
  | ItemStr s => ItemStr (str_lower s)
  | ItemTuple l => ItemTuple (map str_lower l)
  end.

(** A Finding whose sample is put in lower case. *)
Definition finding_lower (f : finding) : finding :=
  Finding (name f) (description f) (occurrences f) (item_lower (sample f)).

(** The least number of characters a pattern can match. *)
Fixpoint min_len (r : Re.regex) : nat :=
  match r with
  | Re.Empty => 0
  | Re.Chr _ | Re.Any | Re.Set_ _ _ => 1
  | Re.Cat r1 r2 => min_len r1 + min_len r2
  | Re.Alt r1 r2 => Nat.min (min_len r1) (min_len r2)
  | Re.Rep lo _ r' => lo * min_len r'
  | Re.Group _ r' => min_len r'
  end.

(** The weighted sum of the aggregator, counted in halves. *)
Definition halves (findings : gmap string (list finding))
    (is_verified : bool) (ownership : ownership_info) : Z :=
  base2 is_verified (renounced ownership)
  + 6 * Z.of_nat (length (tier findings "critical"))
  + 3 * Z.of_nat (length (tier findings "high"))
  + Z.of_nat (length (tier findings "medium")).

(** What a Finding says of its rule. *)
Definition finding_label (f : finding) : string * string :=
  (name f, description f).

Definition rule_label (rule : pattern_info) : string * string :=
  (pi_name rule, pi_description rule).

(** The four keys of the dict of findings. *)
Definition severities : list string := ["critical"; "high"; "medium"; "info"].

(** What a continuation answers, in lower case. *)
Definition lower_result (res : string * Re.caps) : string * Re.caps :=
  (str_lower res.1, caps_lower res.2).

(** The dict of findings with every sample in lower case. *)
Definition findings_lower (findings : gmap string (list finding))
    : gmap string (list finding) :=
  (fun l : list finding => finding_lower <$> l) <$> findings.

(** A JSON value that is an object, a [dict] with [get] and [values]. *)
Definition is_record (j : Json.json) : bool :=
  match j with Json.JObj _ => true | _ => false end.

(** A JSON value that is a string. *)
Definition is_text (j : Json.json) : bool :=
  match j with Json.JStr _ => true | _ => false end.

(** The shape of a decoded wrapper on which [.values()] or [.get] is
    missing: [sources] is no object, or one of its files is no record. *)
Definition attribute_shape (members : list (string * Json.json)) : Prop :=
  exists v, Json.dict_get "sources" members = Some v
            /\ match v with
               | Json.JObj sources =>
                   exists file, file ∈ Json.values sources
                                /\ is_record file = false
               | _ => True
               end.

(** The shape on which [join] meets an item that is no string: every file
    is a record, and one of them has a [content] that is no string. *)
Definition type_shape (members : list (string * Json.json)) : Prop :=
  exists sources,
    Json.dict_get "sources" members = Some (Json.JObj sources)
    /\ Forall (fun file => is_record file = true) (Json.values sources)
    /\ exists m v, Json.JObj m ∈ Json.values sources
                   /\ Json.dict_get "content" m = Some v
                   /\ is_text v = false.

(** The [src.get("content", "")] of the generator. *)
Definition content_item (src : Json.json) : outcome Json.json :=
  match src with
  | Json.JObj m => Ok (default (Json.JStr "") (Json.dict_get "content" m))
  | _ => Raise AttributeError
  end.

(** What [join] does with an item. *)
Definition text_item (item : Json.json) : outcome string :=
  match item with
  | Json.JStr s => Ok s
  | _ => Raise TypeError
  end.

(** The [choices] of the [--chain] argument of [main]. *)
Definition chain_choices : list string := ["eth"; "bsc"; "polygon"].

(** A reply of the explorer that reports a failure, or no result. *)
Definition failure_reply (data : source_reply) : Prop :=
  source_status data <> Some "1" \/ default [] (source_result data) = [].

(** What [json.loads] raises: the error of a malformed document, or the
    refusal of a long integer literal. *)
Definition decoder_error (e : exn) : Prop :=
  e = JSONDecodeError \/ e = ValueError.

(** An integer literal of 4301 digits, one more than the interpreter
    converts. *)
Definition long_integer : string := Py.str_repeat "1" (S Json.max_int_digits).

(** The text [{"a":] followed by [digits]: an object that is never
    closed. *)
Definition unclosed_wrapper (digits : string) : string :=
  "{" +:+ dq "a" +:+ ":" +:+ digits.

(** A success reply whose only entry has the given source. *)
Definition reply_with (source_code : string) : source_reply :=
  SourceReply (Some "1") (Some [SourceEntry (Some source_code) (Some "Token")]).

(** * Properties *)

(** ** Risk aggregator *)

Section Aggregator.

Lemma int_Qeq (x y : Q) : (x == y)%Q -> Py.int x = Py.int y.
Proof.
  unfold Qeq, Py.int. destruct x as [a b], y as [c d]; simpl. intros H.
  rewrite <- (Z.quot_mul_cancel_r a (Z.pos b) (Z.pos d)) by lia.
  rewrite H, (Z.mul_comm (Z.pos b)).
  apply Z.quot_mul_cancel_r; lia.
Qed.

Lemma int_halves (n : Z) : 0 <= n -> Py.int (n # 2) = n / 2.
Proof. intros H. unfold Py.int; simpl. apply Z.quot_div_nonneg; lia. Qed.

Lemma int_truncate (x : Q) : Py.int x = truncate x.
Proof.
  unfold truncate. destruct (Qle_bool 0 x) eqn:E.
  - apply Qle_bool_iff in E. destruct x as [a b].
    unfold Qle in E; simpl in E. unfold Py.int, Qfloor; simpl.
    apply Z.quot_div_nonneg; lia.
  - assert (~ (0 <= x)%Q) as H by (rewrite <- Qle_bool_iff, E; discriminate).
    destruct x as [a b]. unfold Qle in H; simpl in H.
    unfold Py.int, Qceiling, Qfloor; simpl.
    rewrite <- (Z.opp_involutive a) at 1.
    rewrite Z.quot_opp_l by lia. f_equal.
    apply Z.quot_div_nonneg; lia.
Qed.

Lemma per_finding_sum (w : Q) (l : list finding) (acc : Q) :
  (per_finding w l acc == acc + inject_Z (Z.of_nat (length l)) * w)%Q.
Proof.
  unfold per_finding. revert acc.
  induction l as [|f l IH]; intros acc.
  - simpl. ring.
  - cbn [fold_left length]. rewrite IH, Nat2Z.inj_succ, <- Z.add_1_r, inject_Z_plus.
    ring.
Qed.

Lemma clamp_min_max (x : Z) : clamp 1 10 x = Z.min 10 (Z.max 1 x).
Proof.
  unfold clamp.
  destruct (Z.ltb_spec x 1), (Z.ltb_spec 10 x); lia.
Qed.

(** The score in closed form, counted in halves. *)
Lemma risk_score_closed findings is_verified ownership :
  (calculate_risk_score findings is_verified ownership).1 =
  Z.min 10 (Z.max 1
    ((base2 is_verified (renounced ownership)
      + 6 * Z.of_nat (length (tier findings "critical"))
      + 3 * Z.of_nat (length (tier findings "high"))
      + Z.of_nat (length (tier findings "medium"))) / 2)).
Proof.
  unfold calculate_risk_score, len_get, tier, base2. cbn [fst].
  set (c := Z.of_nat (length (default [] (findings !! "critical")))).
  set (h := Z.of_nat (length (default [] (findings !! "high")))).
  set (m := Z.of_nat (length (default [] (findings !! "medium")))).
  assert (0 <= c /\ 0 <= h /\ 0 <= m) as (Hc & Hh & Hm) by (subst c h m; lia).
  do 2 f_equal.
  rewrite <- int_halves by (destruct is_verified, (renounced ownership); lia).
  apply int_Qeq.
  destruct is_verified, (renounced ownership); cbn [negb];
    unfold Qeq, Qplus, Qmult, inject_Z; simpl; lia.
Qed.

Lemma tier_insert_eq (findings : gmap string (list finding)) k l :
  tier (<[k := l]> findings) k = l.
Proof. unfold tier. by rewrite lookup_insert_eq. Qed.

Lemma tier_insert_ne (findings : gmap string (list finding)) k k' l :
  k <> k' -> tier (<[k := l]> findings) k' = tier findings k'.
Proof. intros H. unfold tier. by rewrite lookup_insert_ne. Qed.

Variable findings : gmap string (list finding).
Variable is_verified : bool.
Variable ownership : ownership_info.

(** C1.  The score the code computes is the one the design document
    describes: from 0, plus 4 when the source is unverified, plus 2 when
    the ownership is not [Renounced], plus 3, 1.5, 0.5 and 0 for each
    critical, high, medium and info Finding, truncated to an integer and
    clamped to [1,10]. *)
Theorem risk_score_formula :
  (calculate_risk_score findings is_verified ownership).1 =
  spec_risk_score is_verified (status_of ownership)
    (tier findings "critical") (tier findings "high")
    (tier findings "medium") (tier findings "info").
Proof.
  unfold spec_risk_score, spec_raw_sum.
  rewrite clamp_min_max, <- int_truncate.
  unfold calculate_risk_score, len_get, tier. cbn [fst].
  do 2 f_equal. apply int_Qeq.
  rewrite !per_finding_sum.
  unfold status_of.
  destruct is_verified, (renounced ownership); cbn [negb];
    try destruct (String.eqb _ _); ring.
Qed.

(** C2.  The score lies in [1,10] whatever the inputs. *)
Theorem risk_score_bounds :
  1 <= (calculate_risk_score findings is_verified ownership).1 <= 10.
Proof. unfold calculate_risk_score; cbn [fst]. lia. Qed.

(** C6.  The category follows the ladder on the clamped score: Critical
    from 8, High from 6, Medium from 4, Low below; so 8 and 10 give
    Critical, 7 High, 4 Medium and 1 Low. *)
Theorem risk_category_ladder (score : Z) (level : string) :
  calculate_risk_score findings is_verified ownership = (score, level) ->
  level = category_name (ladder score)
  /\ (8 <= score -> level = "Critical")
  /\ (6 <= score < 8 -> level = "High")
  /\ (4 <= score < 6 -> level = "Medium")
  /\ (score < 4 -> level = "Low")
  /\ (score = 8 \/ score = 10 -> level = "Critical")
  /\ (score = 7 -> level = "High")
  /\ (score = 4 -> level = "Medium")
  /\ (score = 1 -> level = "Low").
Proof.
  unfold calculate_risk_score.
  set (s := Z.min 10 _). intros [= <- <-]. unfold ladder.
  destruct (Z.leb_spec 8 s), (Z.leb_spec 6 s), (Z.leb_spec 4 s);
    cbn [category_name]; repeat split; intros; try reflexivity; lia.
Qed.

(** C9.  One more critical Finding never lowers the score, and one more
    occurrence of a rule that already has its Finding leaves the score as
    it is. *)
Theorem risk_score_monotone_critical (f : finding) (i : nat) :
  let critical := tier findings "critical" in
  (calculate_risk_score findings is_verified ownership).1 <=
    (calculate_risk_score (<["critical" := critical ++ [f]]> findings)
                          is_verified ownership).1
  /\ (calculate_risk_score (<["critical" := alter one_more i critical]> findings)
                           is_verified ownership).1 =
     (calculate_risk_score findings is_verified ownership).1.
Proof.
  intros critical. rewrite !risk_score_closed.
  rewrite !tier_insert_eq, !tier_insert_ne by done.
  fold critical. rewrite length_app, length_alter. cbn [length].
  split; [|reflexivity].
  apply Z.min_le_compat_l, Z.max_le_compat_l, Z.div_le_mono; lia.
Qed.

End Aggregator.

Lemma risk_category_ladder_witness :
  calculate_risk_score ∅ false unknown_owner = (6, "High")
  /\ "High" = category_name (ladder 6).
Proof.
  split; [reflexivity|].
  refine (proj1 (risk_category_ladder ∅ false unknown_owner 6 "High" _)).
  reflexivity.
Defined.

(** The scores 1, 4, 7, 8 and 10 are all attained. *)
Example ladder_boundaries_attained :
  let f := Finding "Self-Destruct" "" 1 (ItemStr "selfdestruct(") in
  let renounced_owner := OwnershipInfo true "0x0000000000000000000000000000000000000000" 1 in
  calculate_risk_score ∅ true renounced_owner = (1, "Low")
  /\ calculate_risk_score ∅ false renounced_owner = (4, "Medium")
  /\ calculate_risk_score {["critical" := [f]]} false renounced_owner = (7, "High")
  /\ calculate_risk_score {["critical" := [f; f]]} true unknown_owner = (8, "Critical")
  /\ calculate_risk_score {["critical" := [f; f; f; f]]} false unknown_owner
     = (10, "Critical").
Proof. vm_compute. repeat split. Qed.

(** ** Ownership resolver *)

Section Strings.

Lemma append_nil (b : string) : EmptyString +:+ b = b.
Proof. reflexivity. Qed.

Lemma append_cons (x : ascii) (a b : string) :
  String x a +:+ b = String x (a +:+ b).
Proof. reflexivity. Qed.

Lemma length_append (a b : string) :
  String.length (a +:+ b) = (String.length a + String.length b)%nat.
Proof.
  induction a as [|c a IH]; [reflexivity|].
  rewrite append_cons. cbn [String.length]. by rewrite IH.
Qed.

Lemma str_drop_append (a b : string) :
  Py.str_drop (String.length a) (a +:+ b) = b.
Proof.
  induction a as [|c a IH]; [by destruct b|].
  rewrite append_cons. exact IH.
Qed.

Lemma str_take_append (a b : string) :
  Py.str_take (String.length a) (a +:+ b) = a.
Proof.
  induction a as [|c a IH]; [by destruct b|].
  rewrite append_cons. cbn [String.length Py.str_take]. by rewrite IH.
Qed.

Lemma str_last_append (n : nat) (a b : string) :
  String.length b = n -> Py.str_last n (a +:+ b) = b.
Proof.
  intros <-. unfold Py.str_last. rewrite length_append.
  replace (String.length a + String.length b - String.length b)%nat
    with (String.length a) by lia.
  apply str_drop_append.
Qed.

Lemma append_assoc (a b c : string) : (a +:+ b) +:+ c = a +:+ (b +:+ c).
Proof.
  induction a as [|x a IH]; [reflexivity|].
  rewrite !append_cons. by rewrite IH.
Qed.

Lemma append_empty_r (a : string) : a +:+ EmptyString = a.
Proof.
  induction a as [|x a IH]; [reflexivity|].
  rewrite append_cons. by rewrite IH.
Qed.

End Strings.

Section Ownership.

Variable data : logs_reply.
Variable events : list log_event.
Variable last_event : log_event.

(** The reply is a success that carries [events], whose last element is
    [last_event]. *)
Hypothesis status_ok : status data = Some "1".
Hypothesis result_ok : result data = Some events.
Hypothesis last_ok : last events = Some last_event.

Lemma check_ownership_status_last :
  check_ownership_status data =
  let topics := default [] (topics last_event) in
  if (3 <=? length topics)%nat then
    match topics !! 2%nat with
    | Some new_owner =>
        if String.eqb new_owner zero_topic
        then OwnershipInfo true "0x0000000000000000000000000000000000000000"
                           (length events)
        else OwnershipInfo false ("0x" +:+ Py.str_last 40 new_owner)
                           (length events)
    | None => OwnershipInfo false "Unknown" (length events)
    end
  else OwnershipInfo false "Unknown" (length events).
Proof using status_ok result_ok last_ok.
  unfold check_ownership_status. rewrite status_ok, result_ok.
  cbn [default from_option id status_is_1].
  change (String.eqb "1" "1") with true.
  destruct events as [|e es]; [discriminate|].
  cbn [Py.list_truthy andb]. rewrite last_ok. reflexivity.
Qed.

(** What the resolver does with the last event.  When it has three
    topics or more, the resolver compares the whole third topic with [0x] followed
    by 64 zeros: equal, the ownership is renounced and the owner is the
    zero address; different, the owner is [0x] followed by the last 40
    characters of the topic.  For a topic that encodes an address this is
    the comparison of the address with 40 zeros. *)
Theorem ownership_from_last_event (t0 t1 new_owner : string)
    (more : list string) :
  topics last_event = Some (t0 :: t1 :: new_owner :: more) ->
  let info := check_ownership_status data in
  transfer_events info = length events
  /\ (new_owner = zero_topic ->
      status_of info = Renounced
      /\ current_owner info = "0x" +:+ zero_address)
  /\ (new_owner <> zero_topic ->
      status_of info = HeldBy ("0x" +:+ new_owner_address new_owner))
  /\ (forall address, String.length address = 40%nat ->
      new_owner = address_topic address ->
      status_of info =
        if String.eqb address zero_address then Renounced
        else HeldBy ("0x" +:+ address)).
Proof using status_ok result_ok last_ok.
  intros Htopics info. subst info.
  rewrite check_ownership_status_last, Htopics.
  cbn [default from_option id length].
  change (3 <=? S (S (S (length more))))%nat with true.
  cbn [lookup list_lookup]. cbv iota.
  destruct (String.eqb_spec new_owner zero_topic) as [Heq|Hne].
  - split; [reflexivity|]. split; [intros _; split; reflexivity|].
    split; [intros Hne; by destruct Hne|].
    intros address Hlen Haddr.
    destruct (String.eqb_spec address zero_address) as [_|Hz]; [reflexivity|].
    exfalso. apply Hz. rewrite Haddr in Heq.
    apply (f_equal (Py.str_last 40)) in Heq.
    unfold address_topic in Heq. rewrite <- append_assoc in Heq.
    rewrite str_last_append in Heq by done. rewrite Heq. reflexivity.
  - assert (forall a, status_of (OwnershipInfo false ("0x" +:+ a) (length events))
                      = HeldBy ("0x" +:+ a)) as Hheld by reflexivity.
    split; [reflexivity|]. split; [intros Heq; by destruct Hne|].
    split; [intros _; apply Hheld|].
    intros address Hlen Haddr. rewrite Hheld, Haddr.
    unfold address_topic. rewrite <- append_assoc.
    rewrite str_last_append by done.
    destruct (String.eqb_spec address zero_address) as [Hz|_]; [|reflexivity].
    exfalso. apply Hne. rewrite Haddr, Hz. reflexivity.
Qed.

(** A last event with fewer than three topics gives [Unknown], and the
    count is still the number of events. *)
Lemma malformed_last_event :
  (length (default [] (topics last_event)) < 3)%nat ->
  check_ownership_status data = OwnershipInfo false "Unknown" (length events).
Proof using status_ok result_ok last_ok.
  intros H. rewrite check_ownership_status_last. cbv zeta.
  destruct (Nat.leb_spec 3 (length (default [] (topics last_event))));
    [lia | reflexivity].
Qed.

End Ownership.

(** Renouncement detection: one event, three topics, the third one [0x]
    and 64 zeros. *)
Lemma ownership_from_last_event_witness :
  let info :=
    check_ownership_status
      (single_event [transfer_signature; address_topic zero_address; zero_topic]) in
  transfer_events info = 1%nat
  /\ status_of info = Renounced
  /\ current_owner info = "0x" +:+ zero_address.
Proof.
  pose proof (ownership_from_last_event
                (single_event [transfer_signature; address_topic zero_address;
                               zero_topic])
                _ _ eq_refl eq_refl eq_refl
                transfer_signature (address_topic zero_address) zero_topic []
                eq_refl) as (Hcount & Hzero & _ & _).
  destruct (Hzero eq_refl) as [Hstatus Howner].
  exact (conj Hcount (conj Hstatus Howner)).
Defined.

(** C3, at an input where the code departs from it.  A third topic whose
    last 40 characters are zeros but whose first bytes are not: the
    address read from it is the zero address, so the claim has
    [Renounced]; the resolver, which compares the whole topic with [0x]
    and 64 zeros, reports no renouncement and the zero address as the
    owner. *)
Lemma zero_address_not_renounced :
  let topic := "0x" +:+ "000000000000000000000001" +:+ zero_address in
  let info :=
    check_ownership_status
      (single_event [transfer_signature; address_topic zero_address; topic]) in
  new_owner_address topic = zero_address
  /\ renounced info = false
  /\ status_of info = HeldBy ("0x" +:+ zero_address).
Proof. vm_compute. repeat split. Qed.

(** C7.  The degenerate inputs: without events the resolver answers
    [Unknown] with a count of 0; with events whose last one has fewer than
    three topics it answers [Unknown] with the number of events as count. *)
Theorem degenerate_events_unknown :
  (forall st, check_ownership_status (LogsReply st (Some [])) = unknown_owner)
  /\ (forall st, check_ownership_status (LogsReply st None) = unknown_owner)
  /\ status_of unknown_owner = Unknown
  /\ (forall data events last_event,
        status data = Some "1" ->
        result data = Some events ->
        last events = Some last_event ->
        (length (default [] (topics last_event)) < 3)%nat ->
        check_ownership_status data
          = OwnershipInfo false "Unknown" (length events)
        /\ status_of (check_ownership_status data) = Unknown
        /\ transfer_events (check_ownership_status data) = length events).
Proof.
  split; [|split; [|split; [reflexivity|]]].
  - intros st. unfold check_ownership_status. cbn [result default from_option id].
    cbn [Py.list_truthy]. by rewrite andb_false_r.
  - intros st. unfold check_ownership_status. cbn [result default from_option id].
    cbn [Py.list_truthy]. by rewrite andb_false_r.
  - intros data events last_event Hst Hres Hlast Hlen.
    rewrite (malformed_last_event data events last_event Hst Hres Hlast Hlen).
    repeat split.
Qed.

(** Three events, the last one with two topics only. *)
Lemma degenerate_events_unknown_witness :
  let events := [LogEvent (Some [transfer_signature; zero_topic; zero_topic]);
                 LogEvent None;
                 LogEvent (Some [transfer_signature; zero_topic])] in
  check_ownership_status (LogsReply (Some "1") (Some events))
  = OwnershipInfo false "Unknown" 3.
Proof.
  intros events.
  pose proof degenerate_events_unknown as (_ & _ & _ & H).
  refine (proj1 (H (LogsReply (Some "1") (Some events)) events
                   (LogEvent (Some [transfer_signature; zero_topic]))
                   eq_refl eq_refl eq_refl _)).
  cbn. lia.
Defined.

(** ** JSON decoder *)

Section JsonFuel.

Import Json.

Lemma skip_ws_length (s : string) :
  (String.length (skip_ws s) <= String.length s)%nat.
Proof.
  induction s as [|c s IH]; [done|]. cbn [skip_ws].
  destruct (is_ws c); cbn [String.length]; lia.
Qed.

Lemma span_digits_length (s : string) :
  (String.length (span_digits s).2 <= String.length s)%nat.
Proof.
  induction s as [|c s IH]; [done|]. cbn [span_digits].
  destruct (is_digit c); [|done].
  destruct (span_digits s) as [ds tl]. cbn [snd String.length] in *. lia.
Qed.

Lemma str_drop_length (n : nat) (s : string) :
  (String.length (Py.str_drop n s) <= String.length s)%nat.
Proof.
  revert s. induction n as [|n IH]; intros [|c s]; cbn [Py.str_drop String.length];
    try lia.
  specialize (IH s). lia.
Qed.

Lemma bind_Ok_inv {A B} (m : outcome A) (k : A -> outcome B) (b : B) :
  m ≫= k = Ok b -> exists a, m = Ok a /\ k a = Ok b.
Proof. destruct m as [a| |]; [eauto | discriminate..]. Qed.

Lemma scanstring_shrinks : forall n s str tl,
  (String.length s <= n)%nat ->
  scanstring s = Ok (str, tl) -> (String.length tl < String.length s)%nat.
Proof.
  induction n as [|n IH]; intros s str tl Hn.
  - destruct s; [discriminate | cbn in Hn; lia].
  - destruct s as [|c rest]; [discriminate|]. cbn [String.length] in Hn.
    cbn [scanstring].
    destruct (Ascii.eqb c quote).
    { intros [= <- <-]. cbn [String.length]. lia. }
    destruct (Ascii.eqb c backslash).
    + destruct rest as [|e rest']; [discriminate|].
      cbn [String.length] in *.
      assert (forall x,
                 (scanstring rest' ≫= fun '(str0, tl0) => Ok (String x str0, tl0))
                 = Ok (str, tl) ->
                 (String.length tl < S (S (String.length rest')))%nat) as Hlit.
      { intros x ([str0 tl0] & E & [= <- <-])%bind_Ok_inv.
        apply IH in E; lia. }
      destruct (Ascii.eqb e quote); [apply Hlit|].
      destruct (Ascii.eqb e backslash); [apply Hlit|].
      destruct e as [[] [] [] [] [] [] [] []]; try discriminate; try apply Hlit.
      destruct rest' as [|h1 [|h2 [|h3 [|h4 rest4]]]]; try discriminate.
      destruct (hex4 h1 h2 h3 h4) as [v|]; [|discriminate].
      destruct (v <? 256)%nat; [|discriminate].
      intros ([str0 tl0] & E & [= <- <-])%bind_Ok_inv.
      cbn [String.length] in *. apply IH in E; lia.
    + destruct (nat_of_ascii c <=? 31)%nat; [discriminate|].
      intros ([str0 tl0] & E & [= <- <-])%bind_Ok_inv.
      cbn [String.length]. apply IH in E; lia.
Qed.

Lemma match_number_shrinks s lexeme tl b :
  match_number s = Some (lexeme, tl, b) ->
  (String.length tl < String.length s)%nat.
Proof.
  unfold match_number.
  set (signed := match s with String "-"%char r => ("-", r) | _ => (EmptyString, s) end).
  assert (String.length signed.2 <= String.length s)%nat as Hsign.
  { subst signed. destruct s as [|[[] [] [] [] [] [] [] []] r];
      cbn [snd String.length]; lia. }
  destruct signed as [sign s1]. cbn [snd] in Hsign.
  destruct s1 as [|c r]; [discriminate|]. cbn [String.length] in Hsign.
  set (int_part := if Ascii.eqb c "0" then _ else _).
  assert (forall digits s2, int_part = Some (digits, s2) ->
                            (String.length s2 <= String.length r)%nat) as Hint.
  { subst int_part. intros digits s2.
    destruct (Ascii.eqb c "0"); [by intros [= <- <-]|].
    destruct (is_digit c); [|discriminate].
    pose proof (span_digits_length r). destruct (span_digits r) as [ds t].
    by intros [= <- <-]. }
  destruct int_part as [[digits s2]|]; [|discriminate].
  specialize (Hint _ _ eq_refl).
  match goal with
  | |- (let '(frac, s3) := ?fr in _) = _ -> _ => set (fracp := fr)
  end.
  assert (String.length fracp.2 <= String.length s2)%nat as Hfrac.
  { subst fracp. destruct s2 as [|d0 [|d r0]];
      [done | by destruct d0 as [[] [] [] [] [] [] [] []] |].
    destruct d0 as [[] [] [] [] [] [] [] []]; try (cbn [snd]; lia).
    destruct (is_digit d) eqn:Ed; [|cbn [snd]; lia].
    pose proof (span_digits_length (String d r0)).
    destruct (span_digits (String d r0)) as [ds t]. cbn [snd String.length] in *. lia. }
  destruct fracp as [frac s3]. cbn [snd] in Hfrac.
  match goal with
  | |- (let '(expo, s4) := ?ex in _) = _ -> _ => set (expp := ex)
  end.
  assert (String.length expp.2 <= String.length s3)%nat as Hexp.
  { subst expp. destruct s3 as [|e r0]; [done|].
    destruct (Ascii.eqb e "e" || Ascii.eqb e "E"); [|done].
    set (es := match r0 with
               | String "+"%char r' => ("+", r')
               | String "-"%char r' => ("-", r')
               | _ => (EmptyString, r0)
               end).
    assert (String.length es.2 <= String.length r0)%nat as Hes.
    { subst es. destruct r0 as [|[[] [] [] [] [] [] [] []] r'];
        cbn [snd String.length]; lia. }
    destruct es as [esign r1]. cbn [snd] in Hes.
    pose proof (span_digits_length r1).
    destruct (span_digits r1) as [[|d ds] t]; cbn [snd String.length] in *; lia. }
  destruct expp as [expo s4]. cbn [snd] in Hexp.
  intros [= _ <- _]. lia.
Qed.

Lemma scan_number_shrinks s v tl :
  scan_number s = Ok (v, tl) -> (String.length tl < String.length s)%nat.
Proof.
  unfold scan_number.
  destruct (match_number s) as [[[lexeme tl'] b]|] eqn:E; [|discriminate].
  destruct b; [discriminate|]. intros [= _ <-]. by apply match_number_shrinks in E.
Qed.

Lemma scan_constant_shrinks word v c rest v' tl :
  scan_constant word v (String c rest) rest = Ok (v', tl) ->
  (String.length tl < String.length (String c rest))%nat.
Proof.
  unfold scan_constant. destruct (Py.startswith word rest).
  - intros [= _ <-]. pose proof (str_drop_length (String.length word) rest).
    cbn [String.length]. lia.
  - apply scan_number_shrinks.
Qed.

(** [scan_once] on a non-empty text, as a chain of tests on its first
    character. *)
Lemma scan_once_S (fuel depth : nat) (c : ascii) (rest : string) :
  scan_once (S fuel) depth (String c rest) =
  let s := String c rest in
  if Ascii.eqb c quote then
    scanstring rest ≫= fun '(str, tl) => Ok (JStr str, tl)
  else if Ascii.eqb c "{" then
    if (max_depth <=? depth)%nat then Beyond
    else match skip_ws rest with
         | String "}"%char tl => Ok (JObj [], tl)
         | s1 => parse_object fuel (S depth) [] s1
         end
  else if Ascii.eqb c "[" then
    if (max_depth <=? depth)%nat then Beyond
    else match skip_ws rest with
         | String "]"%char tl => Ok (JArr [], tl)
         | s1 => parse_array fuel (S depth) [] s1
         end
  else if Ascii.eqb c "n" then scan_constant "ull" JNull s rest
  else if Ascii.eqb c "t" then scan_constant "rue" (JBool true) s rest
  else if Ascii.eqb c "f" then scan_constant "alse" (JBool false) s rest
  else if Ascii.eqb c "N" then scan_constant "aN" (JNum "NaN") s rest
  else if Ascii.eqb c "I" then scan_constant "nfinity" (JNum "Infinity") s rest
  else if Ascii.eqb c "-" then scan_constant "Infinity" (JNum "-Infinity") s rest
  else scan_number s.
Proof. destruct c as [[] [] [] [] [] [] [] []]; reflexivity. Qed.

Lemma opened_object fuel depth rest :
  match skip_ws rest with
  | String "}"%char tl => Ok (JObj [], tl)
  | s1 => parse_object fuel (S depth) [] s1
  end = opened "}" rest (parse_object fuel (S depth) []) (JObj []).
Proof.
  unfold opened. destruct (skip_ws rest) as [|c tl]; [reflexivity|].
  destruct c as [[] [] [] [] [] [] [] []]; reflexivity.
Qed.

Lemma opened_array fuel depth rest :
  match skip_ws rest with
  | String "]"%char tl => Ok (JArr [], tl)
  | s1 => parse_array fuel (S depth) [] s1
  end = opened "]" rest (parse_array fuel (S depth) []) (JArr []).
Proof.
  unfold opened. destruct (skip_ws rest) as [|c tl]; [reflexivity|].
  destruct c as [[] [] [] [] [] [] [] []]; reflexivity.
Qed.

Lemma opened_shrinks close rest loop empty v tl :
  (forall s, loop s = Ok (v, tl) -> (String.length tl < String.length s)%nat) ->
  opened close rest loop empty = Ok (v, tl) ->
  (String.length tl < S (String.length rest))%nat.
Proof.
  intros Hloop. unfold opened. pose proof (skip_ws_length rest) as Hws.
  destruct (skip_ws rest) as [|c s1]; [intros H%Hloop; lia|].
  destruct (Ascii.eqb c close).
  - intros [= _ <-]. cbn [String.length] in Hws. lia.
  - intros H%Hloop. lia.
Qed.

Lemma closing_object fuel depth acc s3 :
  match skip_ws s3 with
  | String "}"%char tl => Ok (JObj acc, tl)
  | String ","%char s4 => parse_object fuel depth acc (skip_ws s4)
  | _ => Raise JSONDecodeError
  end = closing "}" s3 (JObj acc) (parse_object fuel depth acc).
Proof.
  unfold closing. destruct (skip_ws s3) as [|c tl]; [reflexivity|].
  destruct c as [[] [] [] [] [] [] [] []]; reflexivity.
Qed.

Lemma closing_array fuel depth acc s1 :
  match skip_ws s1 with
  | String "]"%char tl => Ok (JArr acc, tl)
  | String ","%char s2 => parse_array fuel depth acc (skip_ws s2)
  | _ => Raise JSONDecodeError
  end = closing "]" s1 (JArr acc) (parse_array fuel depth acc).
Proof.
  unfold closing. destruct (skip_ws s1) as [|c tl]; [reflexivity|].
  destruct c as [[] [] [] [] [] [] [] []]; reflexivity.
Qed.

Lemma closing_shrinks close s done loop v tl :
  (forall s', loop s' = Ok (v, tl) -> (String.length tl < String.length s')%nat) ->
  closing close s done loop = Ok (v, tl) ->
  (String.length tl < String.length s)%nat.
Proof.
  intros Hloop. unfold closing. pose proof (skip_ws_length s) as Hws.
  destruct (skip_ws s) as [|c s1]; [discriminate|]. cbn [String.length] in Hws.
  destruct (Ascii.eqb c close); [intros [= _ <-]; lia|].
  destruct (Ascii.eqb c ","); [|discriminate].
  intros H%Hloop. pose proof (skip_ws_length s1). lia.
Qed.

Lemma opened_ext close rest loop1 loop2 empty :
  (forall s, (String.length s <= String.length rest)%nat -> loop1 s = loop2 s) ->
  opened close rest loop1 empty = opened close rest loop2 empty.
Proof.
  intros H. unfold opened. pose proof (skip_ws_length rest) as Hws.
  destruct (skip_ws rest) as [|c s1]; [by apply H|].
  destruct (Ascii.eqb c close); [reflexivity | by apply H].
Qed.

Lemma closing_ext close s done loop1 loop2 :
  (forall s', (String.length s' < String.length s)%nat -> loop1 s' = loop2 s') ->
  closing close s done loop1 = closing close s done loop2.
Proof.
  intros H. unfold closing. pose proof (skip_ws_length s) as Hws.
  destruct (skip_ws s) as [|c s1]; [reflexivity|]. cbn [String.length] in Hws.
  destruct (Ascii.eqb c close); [reflexivity|].
  destruct (Ascii.eqb c ","); [|reflexivity].
  apply H. pose proof (skip_ws_length s1). lia.
Qed.

Lemma parse_object_S (fuel depth : nat) (acc : list (string * json))
    (s : string) :
  parse_object (S fuel) depth acc s =
  match s with
  | EmptyString => Raise JSONDecodeError
  | String c rest =>
      if Ascii.eqb c quote then
        scanstring rest ≫= fun '(key, s1) =>
          member s1 (scan_once fuel depth)
            (fun val s3 =>
               closing "}" s3 (JObj (dict_set key val acc))
                 (parse_object fuel depth (dict_set key val acc)))
      else Raise JSONDecodeError
  end.
Proof.
  destruct s as [|c rest]; [reflexivity|]. cbn [parse_object].
  destruct (Ascii.eqb c quote); [|reflexivity].
  destruct (scanstring rest) as [[key s1]| |]; [|reflexivity..].
  cbn [mbind outcome_bind bind]. unfold member.
  destruct (skip_ws s1) as [|c2 s2]; [reflexivity|].
  destruct c2 as [[] [] [] [] [] [] [] []]; try reflexivity.
  cbn [Ascii.eqb Bool.eqb].
  destruct (scan_once fuel depth (skip_ws s2)) as [[val s3]| |]; [|reflexivity..].
  cbn [mbind outcome_bind bind]. apply closing_object.
Qed.

Lemma parse_array_S (fuel depth : nat) (acc : list json) (s : string) :
  parse_array (S fuel) depth acc s =
  scan_once fuel depth s ≫= fun '(val, s1) =>
    closing "]" s1 (JArr (acc ++ [val])) (parse_array fuel depth (acc ++ [val])).
Proof.
  cbn [parse_array].
  destruct (scan_once fuel depth s) as [[val s1]| |]; [|reflexivity..].
  cbn [mbind outcome_bind bind]. apply closing_array.
Qed.

(** A value, the members of an object and the items of an array all read
    at least one character. *)
Lemma scan_shrinks (fuel : nat) :
  (forall depth s v tl,
      scan_once fuel depth s = Ok (v, tl) ->
      (String.length tl < String.length s)%nat)
  /\ (forall depth acc s v tl,
         parse_object fuel depth acc s = Ok (v, tl) ->
         (String.length tl < String.length s)%nat)
  /\ (forall depth acc s v tl,
         parse_array fuel depth acc s = Ok (v, tl) ->
         (String.length tl < String.length s)%nat).
Proof.
  induction fuel as [|fuel (IHonce & IHobj & IHarr)];
    [repeat split; intros; discriminate|].
  split; [|split].
  - intros depth [|c rest] v tl; [discriminate|]. rewrite scan_once_S. cbv zeta.
    destruct (Ascii.eqb c quote).
    { intros ([str tl'] & E & [= _ <-])%bind_Ok_inv.
      apply (scanstring_shrinks _ _ _ _ (Nat.le_refl _)) in E.
      cbn [String.length]. lia. }
    destruct (Ascii.eqb c "{").
    { destruct (max_depth <=? depth)%nat; [discriminate|].
      rewrite opened_object. apply opened_shrinks. intros s. apply IHobj. }
    destruct (Ascii.eqb c "[").
    { destruct (max_depth <=? depth)%nat; [discriminate|].
      rewrite opened_array. apply opened_shrinks. intros s. apply IHarr. }
    repeat (match goal with
            | |- (if ?b then _ else _) = _ -> _ =>
                destruct b; [apply scan_constant_shrinks|]
            end).
    apply scan_number_shrinks.
  - intros depth acc [|c rest] v tl; rewrite parse_object_S; [discriminate|].
    destruct (Ascii.eqb c quote); [|discriminate].
    intros ([key s1] & E & H)%bind_Ok_inv.
    apply (scanstring_shrinks _ _ _ _ (Nat.le_refl _)) in E.
    unfold member in H. pose proof (skip_ws_length s1) as Hws.
    destruct (skip_ws s1) as [|c2 s2]; [discriminate|].
    cbn [String.length] in Hws.
    destruct (Ascii.eqb c2 ":"); [|discriminate].
    apply bind_Ok_inv in H as ([val s3] & E2%IHonce & H).
    apply closing_shrinks in H; [|intros s'; apply IHobj].
    pose proof (skip_ws_length s2). cbn [String.length]. lia.
  - intros depth acc s v tl. rewrite parse_array_S.
    intros ([val s1] & E%IHonce & H)%bind_Ok_inv.
    apply closing_shrinks in H; [|intros s'; apply IHarr]. lia.
Qed.

(** More fuel than twice the length of the text changes nothing. *)
Lemma scan_fuel_enough (fuel : nat) : forall fuel',
  (forall depth s,
      (2 * String.length s + 1 <= fuel)%nat ->
      (2 * String.length s + 1 <= fuel')%nat ->
      scan_once fuel depth s = scan_once fuel' depth s)
  /\ (forall depth acc s,
         (2 * String.length s + 1 <= fuel)%nat ->
         (2 * String.length s + 1 <= fuel')%nat ->
         parse_object fuel depth acc s = parse_object fuel' depth acc s)
  /\ (forall depth acc s,
         (2 * String.length s + 2 <= fuel)%nat ->
         (2 * String.length s + 2 <= fuel')%nat ->
         parse_array fuel depth acc s = parse_array fuel' depth acc s).
Proof.
  induction fuel as [|fuel IH]; intros fuel';
    [repeat split; intros; lia|].
  destruct fuel' as [|fuel']; [repeat split; intros; lia|].
  destruct (IH fuel') as (IHonce & IHobj & IHarr).
  destruct (scan_shrinks fuel) as (Sonce & _ & _).
  split; [|split].
  - intros depth [|c rest] Hf Hf'; [reflexivity|]. rewrite !scan_once_S.
    cbn [String.length] in Hf, Hf'. cbv zeta.
    destruct (Ascii.eqb c quote); [reflexivity|].
    destruct (Ascii.eqb c "{").
    { destruct (max_depth <=? depth)%nat; [reflexivity|].
      rewrite !opened_object. apply opened_ext. intros s Hs. apply IHobj; lia. }
    destruct (Ascii.eqb c "[").
    { destruct (max_depth <=? depth)%nat; [reflexivity|].
      rewrite !opened_array. apply opened_ext. intros s Hs. apply IHarr; lia. }
    reflexivity.
  - intros depth acc [|c rest] Hf Hf'; rewrite !parse_object_S; [reflexivity|].
    cbn [String.length] in Hf, Hf'.
    destruct (Ascii.eqb c quote); [|reflexivity].
    destruct (scanstring rest) as [[key s1]| |] eqn:E; [|reflexivity..].
    apply (scanstring_shrinks _ _ _ _ (Nat.le_refl _)) in E.
    cbn [mbind outcome_bind bind]. unfold member.
    pose proof (skip_ws_length s1) as Hws.
    destruct (skip_ws s1) as [|c2 s2]; [reflexivity|].
    cbn [String.length] in Hws.
    destruct (Ascii.eqb c2 ":"); [|reflexivity].
    pose proof (skip_ws_length s2) as Hws2.
    rewrite (IHonce depth (skip_ws s2)) by lia.
    destruct (scan_once fuel' depth (skip_ws s2)) as [[val s3]| |] eqn:E2;
      [|reflexivity..].
    cbn [mbind outcome_bind bind].
    rewrite <- (IHonce depth (skip_ws s2)) in E2 by lia. apply Sonce in E2.
    apply closing_ext. intros s' Hs'. apply IHobj; lia.
  - intros depth acc s Hf Hf'. rewrite !parse_array_S.
    rewrite (IHonce depth s) by lia.
    destruct (scan_once fuel' depth s) as [[val s1]| |] eqn:E; [|reflexivity..].
    cbn [mbind outcome_bind bind].
    rewrite <- (IHonce depth s) in E by lia. apply Sonce in E.
    apply closing_ext. intros s' Hs'. apply IHarr; lia.
Qed.

(** [loads] gives the decoder all the fuel it can use: with more, the
    answer is the same. *)
Lemma loads_fuel (s : string) (fuel : nat) :
  (2 * String.length s + 2 <= fuel)%nat ->
  loads s =
  scan_once fuel 0 (skip_ws s) ≫= fun '(obj, tl) =>
    match skip_ws tl with
    | EmptyString => Ok obj
    | String _ _ => Raise JSONDecodeError
    end.
Proof.
  intros Hf. unfold loads. pose proof (skip_ws_length s).
  destruct (scan_fuel_enough (2 * String.length s + 2) fuel) as (H1 & _ & _).
  rewrite (H1 0%nat (skip_ws s)) by lia. reflexivity.
Qed.

End JsonFuel.

(** ** Source normaliser *)

Section Normaliser.

Lemma mapM_Ok {A B} (f : A -> outcome B) (l : list A) (l' : list B) :
  Forall2 (fun x y => f x = Ok y) l l' -> mapM f l = Ok l'.
Proof.
  induction 1 as [|x y l l' Hxy _ IH]; [reflexivity|].
  cbn [mapM]. rewrite Hxy. cbn. rewrite IH. reflexivity.
Qed.

Lemma try_unwrap_eq (source_code text : string) (v : outcome Json.json) :
  Json.loads text = v ->
  try_unwrap source_code text =
  match v with
  | Ok source_json => join_sources source_json
  | Raise JSONDecodeError => Ok source_code
  | Raise e => Raise e
  | Beyond => Beyond
  end.
Proof. intros <-. reflexivity. Qed.

Lemma normalize_wrapper (source_code : string) (v : outcome Json.json) :
  wrapper_decodes source_code v ->
  normalize_source source_code =
  match v with
  | Ok source_json => join_sources source_json
  | Raise JSONDecodeError => Ok source_code
  | Raise e => Raise e
  | Beyond => Beyond
  end.
Proof.
  unfold normalize_source.
  intros [[-> H]|(-> & -> & H)]; by apply try_unwrap_eq.
Qed.

Lemma normalize_plain (s : string) :
  Py.startswith "{" s = false -> normalize_source s = Ok s.
Proof.
  intros H. unfold normalize_source.
  destruct s as [|c s]; [reflexivity|].
  cbn [Py.startswith] in *. rewrite andb_true_r in H. rewrite H. reflexivity.
Qed.

Lemma join_sources_contents members sources contents :
  Json.dict_get "sources" members = Some (Json.JObj sources) ->
  has_contents sources contents ->
  join_sources (Json.JObj members) = Ok (Py.join newline contents).
Proof.
  intros Hs Hc. unfold join_sources. rewrite Hs. cbn [default from_option id].
  rewrite (mapM_Ok _ (Json.values sources) (map Json.JStr contents)).
  - cbn. rewrite (mapM_Ok _ (map Json.JStr contents) contents); [reflexivity|].
    clear. induction contents; cbn [map]; constructor; done.
  - unfold Json.values, has_contents in *. clear Hs.
    induction Hc as [|[k v] c l l' (m & Hv & Hm) _ IH];
      cbn [map]; constructor; try done.
    cbn in *. rewrite Hv, Hm. reflexivity.
Qed.

Lemma join_sources_absent members :
  Json.dict_get "sources" members = None -> join_sources (Json.JObj members) = Ok "".
Proof. intros Hs. unfold join_sources. rewrite Hs. reflexivity. Qed.

Lemma join_empties_succ (n : nat) :
  Py.join newline (replicate (S n) "") = Py.str_repeat newline n.
Proof.
  induction n as [|n IH]; [reflexivity|].
  change (Py.join newline (replicate (S (S n)) ""))
    with ("" +:+ newline +:+ Py.join newline (replicate (S n) "")).
  rewrite IH. reflexivity.
Qed.

Lemma join_empties (n : nat) :
  Py.join newline (replicate n "") = Py.str_repeat newline (n - 1).
Proof.
  destruct n as [|n]; [reflexivity|].
  rewrite join_empties_succ. cbn [Nat.sub]. by rewrite Nat.sub_0_r.
Qed.

Lemma join_sources_lacking members sources :
  Json.dict_get "sources" members = Some (Json.JObj sources) ->
  lacks_contents sources ->
  join_sources (Json.JObj members)
  = Ok (Py.str_repeat newline (length sources - 1)).
Proof.
  intros Hs Hc. unfold join_sources. rewrite Hs. cbn [default from_option id].
  rewrite (mapM_Ok _ (Json.values sources) (replicate (length sources) (Json.JStr ""))).
  - cbn. rewrite (mapM_Ok _ _ (replicate (length sources) "")).
    + cbn. by rewrite join_empties.
    + clear. induction (length sources); cbn [replicate]; constructor; done.
  - unfold Json.values, lacks_contents in *. clear Hs.
    induction Hc as [|[k v] l (m & Hv & Hm) _ IH];
      cbn [map length replicate]; constructor; try done.
    cbn in *. rewrite Hv, Hm. reflexivity.
Qed.

(** A text that starts with two braces is no JSON document. *)
Lemma loads_double_brace (tl : string) :
  Json.loads (String "{" (String "{" tl)) = Raise JSONDecodeError.
Proof.
  unfold Json.loads. cbn [String.length Json.skip_ws Json.is_ws].
  replace (2 * S (S (String.length tl)) + 2)%nat
    with (S (S (2 * String.length tl + 4))) by lia.
  reflexivity.
Qed.

Lemma startswith_brace (s : string) :
  Py.startswith "{" s = true -> exists tl, s = String "{" tl.
Proof.
  destruct s as [|c s]; [discriminate|]. cbn [Py.startswith].
  rewrite andb_true_r. intros H%Ascii.eqb_eq. subst. eauto.
Qed.

Lemma decoded_single_brace (s : string) (j : Json.json) :
  Py.startswith "{" s = true -> Json.loads s = Ok j ->
  wrapper_decodes s (Ok j).
Proof.
  intros Hb Hl. right. split; [|done].
  destruct (startswith_brace s Hb) as [tl ->].
  destruct tl as [|c tl]; [reflexivity|].
  cbn [Py.startswith]. destruct (Ascii.eqb_spec "{" c) as [<-|]; [|reflexivity].
  rewrite loads_double_brace in Hl. discriminate.
Qed.

Lemma decoded_double_brace (s : string) (j : Json.json) :
  Py.startswith "{" s = true -> Json.loads s = Ok j ->
  wrapper_decodes ("{" +:+ s +:+ "}") (Ok j).
Proof.
  intros Hb Hl. left.
  destruct (startswith_brace s Hb) as [tl ->].
  split; [reflexivity|].
  unfold Py.str_strip_ends. rewrite !append_cons, append_nil.
  cbn [Py.str_drop String.length]. rewrite length_append.
  cbn [String.length].
  replace (S (S (String.length tl + 1)) - 2)%nat
    with (String.length (String "{" tl)) by (cbn [String.length]; lia).
  rewrite <- append_cons.
  rewrite str_take_append. exact Hl.
Qed.
End Normaliser.

(** The normaliser where the decoder answers.  (1) A JSON object text
    that starts with a brace and carries a [sources] map of records with
    a string [content] is replaced by these strings, in the order of the
    map and joined by newlines, with or without one extra pair of braces
    around it; the single-file wrapper gives exactly ["X"].  (2) A text
    that does not start with a brace is returned as it is.  (3) When a
    wrapper is detected and the decoder rejects its text with
    [JSONDecodeError], the original string is returned and nothing is
    raised. *)
Theorem normalizer_contract :
  (forall text members sources contents,
      Py.startswith "{" text = true ->
      Json.loads text = Ok (Json.JObj members) ->
      Json.dict_get "sources" members = Some (Json.JObj sources) ->
      has_contents sources contents ->
      normalize_source text = Ok (Py.join newline contents)
      /\ normalize_source ("{" +:+ text +:+ "}")
         = Ok (Py.join newline contents))
  /\ normalize_source single_file_wrapper = Ok "X"
  /\ normalize_source ("{" +:+ single_file_wrapper +:+ "}") = Ok "X"
  /\ (forall text, Py.startswith "{" text = false ->
                   normalize_source text = Ok text)
  /\ normalize_source "X" = Ok "X"
  /\ (forall text, wrapper_decodes text (Raise JSONDecodeError) ->
                   normalize_source text = Ok text).
Proof.
  split; [|split; [|split; [|split; [|split]]]].
  - intros text members sources contents Hb Hl Hs Hc. split.
    + rewrite (normalize_wrapper _ _ (decoded_single_brace _ _ Hb Hl)).
      by apply join_sources_contents with sources.
    + rewrite (normalize_wrapper _ _ (decoded_double_brace _ _ Hb Hl)).
      by apply join_sources_contents with sources.
  - vm_compute. reflexivity.
  - vm_compute. reflexivity.
  - apply normalize_plain.
  - reflexivity.
  - intros text H. by rewrite (normalize_wrapper _ _ H).
Qed.

(** A wrapper of two files, [A.sol] before [B.sol], and a wrapper the
    decoder rejects. *)
Lemma normalizer_contract_witness :
  let text := "{" +:+ dq "sources" +:+ ":{" +:+ dq "B.sol" +:+ ":{"
                  +:+ dq "content" +:+ ":" +:+ dq "Y" +:+ "},"
                  +:+ dq "A.sol" +:+ ":{" +:+ dq "content" +:+ ":"
                  +:+ dq "X" +:+ "}}}" in
  (normalize_source text = Ok ("Y" +:+ newline +:+ "X")
   /\ normalize_source ("{" +:+ text +:+ "}") = Ok ("Y" +:+ newline +:+ "X"))
  /\ normalize_source "pragma solidity" = Ok "pragma solidity"
  /\ normalize_source "{ uint x; }" = Ok "{ uint x; }".
Proof.
  intros text.
  pose proof normalizer_contract as (H1 & _ & _ & H2 & _ & H3).
  split; [|split].
  - refine (H1 text _ _ ["Y"; "X"] eq_refl eq_refl eq_refl _).
    repeat constructor; eexists; split; reflexivity.
  - exact (H2 "pragma solidity" eq_refl).
  - apply H3. right. repeat split.
Defined.

(** ** Wrappers without sources *)

(** Two files without content: the normalised text is one newline and the
    contract counts as verified. *)
Lemma two_empty_files_verified :
  Json.loads two_empty_files
  = Ok (Json.JObj [("sources", Json.JObj [("A.sol", Json.JObj []);
                                          ("B.sol", Json.JObj [])])])
  /\ normalize_source two_empty_files = Ok newline
  /\ fetch_contract_source
       (SourceReply (Some "1")
          (Some [SourceEntry (Some two_empty_files) (Some "Token")]))
     = Ok (true, newline, "Token").
Proof. vm_compute. repeat split. Qed.

(** C10, as the code has it.  When a wrapper is detected and decodes to an
    object without a [sources] key, the normalised text is empty and the
    contract is reported unverified.  When [sources] maps [n] files that
    all lack a content, the text is [n - 1] newlines: the contract is
    unverified for [n <= 1] and verified from [n = 2] on. *)
Theorem sourceless_wrapper_unverified (data : source_reply)
    (entry : source_entry) (others : list source_entry)
    (members : list (string * Json.json)) :
  source_status data = Some "1" ->
  source_result data = Some (entry :: others) ->
  wrapper_decodes (default "" (SourceCode entry)) (Ok (Json.JObj members)) ->
  let contract_name := default "Unknown" (ContractName entry) in
  (Json.dict_get "sources" members = None ->
   fetch_contract_source data = Ok (false, "", contract_name))
  /\ (forall sources,
        Json.dict_get "sources" members = Some (Json.JObj sources) ->
        lacks_contents sources ->
        fetch_contract_source data
        = Ok ((1 <? length sources)%nat,
              Py.str_repeat newline (length sources - 1), contract_name)).
Proof.
  intros Hst Hres Hw contract_name.
  unfold fetch_contract_source. rewrite Hst, Hres.
  cbn [default from_option id status_is_1].
  change (String.eqb "1" "1") with true. cbv iota.
  rewrite (normalize_wrapper _ _ Hw). split.
  - intros Hs. rewrite (join_sources_absent _ Hs). reflexivity.
  - intros sources Hs Hl. rewrite (join_sources_lacking _ _ Hs Hl).
    cbn. do 2 f_equal.
    destruct sources as [|? [|? ?]]; reflexivity.
Qed.

(** A wrapper without [sources], and one with a single empty file. *)
Lemma sourceless_wrapper_unverified_witness :
  let reply text :=
    SourceReply (Some "1") (Some [SourceEntry (Some text) (Some "Token")]) in
  fetch_contract_source (reply ("{" +:+ dq "language" +:+ ":" +:+ dq "Solidity" +:+ "}"))
  = Ok (false, "", "Token")
  /\ fetch_contract_source (reply ("{{" +:+ dq "sources" +:+ ":{" +:+ dq "A.sol" +:+ ":{}}}}"))
     = Ok (false, "", "Token").
Proof.
  intros reply. split.
  - refine (proj1 (sourceless_wrapper_unverified
                     (reply ("{" +:+ dq "language" +:+ ":" +:+ dq "Solidity" +:+ "}"))
                     _ _ [("language", Json.JStr "Solidity")]
                     eq_refl eq_refl _) eq_refl).
    right. repeat split.
  - refine (proj2 (sourceless_wrapper_unverified
                     (reply ("{{" +:+ dq "sources" +:+ ":{" +:+ dq "A.sol" +:+ ":{}}}}"))
                     _ _ [("sources", Json.JObj [("A.sol", Json.JObj [])])]
                     eq_refl eq_refl _) [("A.sol", Json.JObj [])] eq_refl _).
    + left. repeat split.
    + repeat constructor. eexists; split; reflexivity.
Defined.

(** ** Matcher *)

Section Matcher.

Lemma suffix_of_refl s : suffix_of s s.
Proof. by exists EmptyString. Qed.

Lemma suffix_of_tail c s' s : suffix_of s' s -> suffix_of s' (String c s).
Proof. intros [p ->]. by exists (String c p). Qed.

Lemma suffix_of_trans s1 s2 s3 :
  suffix_of s1 s2 -> suffix_of s2 s3 -> suffix_of s1 s3.
Proof. intros [p ->] [q ->]. exists (q +:+ p). by rewrite append_assoc. Qed.

Lemma suffix_of_length s' s :
  suffix_of s' s -> (String.length s' <= String.length s)%nat.
Proof. intros [p ->]. rewrite length_append. lia. Qed.

Lemma consumed_append p s' : Re.consumed (p +:+ s') s' = p.
Proof.
  unfold Re.consumed. rewrite length_append.
  replace (String.length p + String.length s' - String.length s')%nat
    with (String.length p) by lia.
  apply str_take_append.
Qed.

Lemma consumed_suffix s s' :
  suffix_of s' s -> s = Re.consumed s s' +:+ s'.
Proof. intros [p ->]. by rewrite consumed_append. Qed.

Variable ic : bool.

(** The continuation of [run] is only ever given a suffix of the input. *)
Lemma run_suffix (r : Re.regex) : forall s c k res,
  Re.run ic r s c k = Some res ->
  exists s' c', suffix_of s' s /\ k s' c' = Some res.
Proof.
  induction r as [| p | | negated items | r1 IH1 r2 IH2 | r1 IH1 r2 IH2
                  | lo hi r' IH | n r' IH]; intros s c k res; cbn [Re.run].
  - intros H. exists s, c. split; [apply suffix_of_refl | exact H].
  - destruct s as [|x s]; [discriminate|].
    destruct (Re.char_eq ic p x); [|discriminate].
    intros H. exists s, c. split; [|exact H]. apply suffix_of_tail, suffix_of_refl.
  - destruct s as [|x s]; [discriminate|].
    destruct (Ascii.eqb x "010"); [discriminate|].
    intros H. exists s, c. split; [|exact H]. apply suffix_of_tail, suffix_of_refl.
  - destruct s as [|x s]; [discriminate|].
    destruct (Re.in_set ic negated items x); [|discriminate].
    intros H. exists s, c. split; [|exact H]. apply suffix_of_tail, suffix_of_refl.
  - intros (s1 & c1 & Hs1 & H)%IH1.
    apply IH2 in H as (s2 & c2 & Hs2 & H).
    exists s2, c2. split; [|exact H]. by apply suffix_of_trans with s1.
  - destruct (Re.run ic r1 s c k) as [res1|] eqn:E1.
    + intros [= <-]. by apply IH1 in E1.
    + apply IH2.
  - generalize (String.length s) at 1 as fuel. generalize 0%nat as count.
    intros count fuel. revert count s c.
    induction fuel as [|fuel IHf]; intros count s c.
    + destruct (lo <=? count)%nat; [|discriminate].
      intros H. exists s, c. split; [apply suffix_of_refl | exact H].
    + destruct (Re.under hi count).
      * match goal with
        | |- match ?m with _ => _ end = _ -> _ => destruct m as [res1|] eqn:E1
        end.
        -- intros [= <-].
           apply IH in E1 as (s1 & c1 & Hs1 & H).
           destruct (String.length s1 <? String.length s)%nat; [|discriminate].
           apply IHf in H as (s2 & c2 & Hs2 & H).
           exists s2, c2. split; [|exact H]. by apply suffix_of_trans with s1.
        -- destruct (lo <=? count)%nat; [|discriminate].
           intros H. exists s, c. split; [apply suffix_of_refl | exact H].
      * destruct (lo <=? count)%nat; [|discriminate].
        intros H. exists s, c. split; [apply suffix_of_refl | exact H].
  - intros (s1 & c1 & Hs1 & H)%IH. eauto.
Qed.

Variable r : Re.regex.

Lemma match_at_spec s ma s' c' :
  Re.match_at ic r s ma = Some (s', c') ->
  suffix_of s' s
  /\ (ma = true -> String.length s' <> String.length s).
Proof.
  unfold Re.match_at. intros (s1 & c1 & Hs1 & H)%run_suffix.
  destruct ma; cbn [andb] in H.
  - destruct (Nat.eqb_spec (String.length s1) (String.length s)) as [|Hne];
      [discriminate|].
    injection H as <- <-. done.
  - injection H as <- <-. done.
Qed.

(** The match [search] returns lies in [s] after a gap, and [rest] is
    what follows it; after an empty match the search does not return the
    empty match at the same place. *)
Lemma search_spec : forall s ma pos m rest,
  Re.search ic r s ma pos = Some (m, rest) ->
  exists gap, s = gap +:+ Re.m_text m +:+ rest
              /\ Re.m_start m = (pos + String.length gap)%nat
              /\ (ma = true -> Re.m_text m = EmptyString -> gap <> EmptyString).
Proof.
  induction s as [|x s IH]; intros ma pos m rest; cbn [Re.search].
  - destruct (Re.match_at ic r "" ma) as [[s' c']|] eqn:E; [|discriminate].
    intros [= <- <-]. apply match_at_spec in E as [Hsuf%consumed_suffix Hadv].
    exists EmptyString. cbn [Re.m_text Re.m_start String.length].
    rewrite append_nil. split; [exact Hsuf|]. split; [lia|].
    intros Hma Htext. specialize (Hadv Hma).
    rewrite Htext, append_nil in Hsuf. by rewrite Hsuf in Hadv.
  - destruct (Re.match_at ic r (String x s) ma) as [[s' c']|] eqn:E.
    + intros [= <- <-].
      apply match_at_spec in E as [Hsuf%consumed_suffix Hadv].
      exists EmptyString. cbn [Re.m_text Re.m_start String.length].
      rewrite append_nil. split; [exact Hsuf|]. split; [lia|].
      intros Hma Htext. specialize (Hadv Hma).
      rewrite Htext, append_nil in Hsuf. by rewrite Hsuf in Hadv.
    + intros (gap & Hs & Hstart & _)%IH.
      exists (String x gap). rewrite append_cons, <- Hs.
      split; [reflexivity|]. split; [cbn [String.length]; lia | done].
Qed.

Lemma scan_tiled : forall fuel s ma pos,
  tiled pos s (Re.scan fuel ic r s ma pos).
Proof.
  induction fuel as [|fuel IH]; intros s ma pos; cbn [Re.scan];
    [constructor|].
  destruct (Re.search ic r s ma pos) as [[m rest]|] eqn:E; [|constructor].
  apply search_spec in E as (gap & -> & Hstart & _).
  constructor; [exact Hstart | apply IH].
Qed.

(** The matches of [finditer] lie in the text from left to right, without
    overlap. *)
Lemma finditer_tiled text : tiled 0 text (Re.finditer ic r text).
Proof. apply scan_tiled. Qed.

(** The loop of [finditer] never runs out of fuel. *)
Lemma scan_fuel : forall fuel fuel' s ma pos,
  (budget s ma < fuel)%nat -> (budget s ma < fuel')%nat ->
  Re.scan fuel ic r s ma pos = Re.scan fuel' ic r s ma pos.
Proof.
  induction fuel as [|fuel IH]; intros fuel' s ma pos Hf Hf'; [lia|].
  destruct fuel' as [|fuel']; [lia|]. cbn [Re.scan].
  destruct (Re.search ic r s ma pos) as [[m rest]|] eqn:E; [|reflexivity].
  f_equal. apply search_spec in E as (gap & Hs & _ & Hadv).
  assert (budget rest (String.length (Re.m_text m) =? 0)%nat < budget s ma)%nat.
  { unfold budget in *. rewrite Hs, !length_append.
    destruct (Nat.eqb_spec (String.length (Re.m_text m)) 0) as [Hz|Hnz]; [|lia].
    destruct ma; [|lia].
    assert (Re.m_text m = EmptyString) as Htext
      by (by destruct (Re.m_text m)).
    specialize (Hadv eq_refl Htext). destruct gap; [done|].
    cbn [String.length]. lia. }
  apply IH; lia.
Qed.

Lemma finditer_fuel text fuel :
  (2 * String.length text + 2 <= fuel)%nat ->
  Re.scan fuel ic r text false 0 = Re.finditer ic r text.
Proof. intros H. apply scan_fuel; unfold budget; lia. Qed.

End Matcher.

Section Repetition.

Variable ic : bool.

(** [run] only looks at what its continuation answers. *)
Lemma run_ext (r : Re.regex) : forall s c k1 k2,
(forall s' c', k1 s' c' = k2 s' c') ->
Re.run ic r s c k1 = Re.run ic r s c k2.
Proof.
induction r as [| p | | negated items | r1 IH1 r2 IH2 | r1 IH1 r2 IH2
                | lo hi r' IH | n r' IH]; intros s c k1 k2 Hk; cbn [Re.run].
- apply Hk.
- destruct s as [|x s]; [reflexivity|]. by rewrite Hk.
- destruct s as [|x s]; [reflexivity|]. by rewrite Hk.
- destruct s as [|x s]; [reflexivity|]. by rewrite Hk.
- apply IH1. intros s1 c1. by apply IH2.
- rewrite (IH1 s c k1 k2 Hk), (IH2 s c k1 k2 Hk). reflexivity.
- generalize (String.length s) at 1 2 as fuel. generalize 0%nat as count.
  intros count fuel. revert count s c.
  induction fuel as [|fuel IHf]; intros count s c.
  + by rewrite Hk.
  + rewrite Hk. destruct (Re.under hi count); [|reflexivity].
    erewrite IH; [reflexivity|].
    intros s1 c1. cbv beta.
    destruct (String.length s1 <? String.length s)%nat; [apply IHf | reflexivity].
- apply IH. intros s1 c1. apply Hk.
Qed.

Lemma run_rep lo hi r' s c k :
Re.run ic (Re.Rep lo hi r') s c k
= rep_loop ic lo hi r' k (String.length s) 0 s c.
Proof.
cbn [Re.run]. generalize (String.length s) at 1 2 as fuel.
generalize 0%nat as count. intros count fuel. revert count s c.
induction fuel as [|fuel IH]; intros count s c; [reflexivity|].
cbn [rep_loop]. destruct (Re.under hi count); [|reflexivity].
erewrite run_ext; [reflexivity|].
intros s1 c1. cbv beta.
destruct (String.length s1 <? String.length s)%nat; [apply IH | reflexivity].
Qed.

(** A continuation that always fails makes [run] fail. *)
Lemma run_none (r : Re.regex) : forall s c k,
(forall s' c', k s' c' = None) -> Re.run ic r s c k = None.
Proof.
induction r as [| p | | negated items | r1 IH1 r2 IH2 | r1 IH1 r2 IH2
                | lo hi r' IH | n r' IH]; intros s c k Hk; cbn [Re.run].
- apply Hk.
- destruct s as [|x s]; [reflexivity|]. rewrite Hk. by destruct (Re.char_eq _ _ _).
- destruct s as [|x s]; [reflexivity|]. rewrite Hk. by destruct (Ascii.eqb _ _).
- destruct s as [|x s]; [reflexivity|]. rewrite Hk. by destruct (Re.in_set _ _ _ _).
- apply IH1. intros s1 c1. by apply IH2.
- by rewrite (IH1 s c k Hk), (IH2 s c k Hk).
- generalize (String.length s) at 1 as fuel. generalize 0%nat as count.
  intros count fuel. revert count s c.
  induction fuel as [|fuel IHf]; intros count s c.
  + rewrite Hk. by destruct (lo <=? count)%nat.
  + rewrite Hk. destruct (Re.under hi count).
    * rewrite IH; [by destruct (lo <=? count)%nat|].
      intros s1 c1. cbv beta.
      destruct (String.length s1 <? String.length s)%nat; [apply IHf | reflexivity].
    * by destruct (lo <=? count)%nat.
- apply IH. intros s1 c1. apply Hk.
Qed.

(** The fuel a quantifier starts with, the length of the text left, is
  never used up: more fuel changes nothing. *)
Lemma rep_loop_fuel lo hi r' k : forall fuel fuel' count s c,
(String.length s <= fuel)%nat -> (String.length s <= fuel')%nat ->
rep_loop ic lo hi r' k fuel count s c = rep_loop ic lo hi r' k fuel' count s c.
Proof.
assert (forall fuel count c,
           rep_loop ic lo hi r' k fuel count EmptyString c
           = if (lo <=? count)%nat then k EmptyString c else None) as Hempty.
{ intros [|fuel] count c; [reflexivity|]. cbn [rep_loop].
  destruct (Re.under hi count); [|reflexivity].
  rewrite run_none; [reflexivity|]. intros s1 c1. cbn [String.length].
  by destruct (String.length s1). }
induction fuel as [|fuel IH]; intros fuel' count s c Hf Hf'.
- destruct s; [|cbn in Hf; lia]. by rewrite !Hempty.
- destruct fuel' as [|fuel'].
  + destruct s; [|cbn in Hf'; lia]. by rewrite !Hempty.
  + cbn [rep_loop]. destruct (Re.under hi count); [|reflexivity].
    erewrite run_ext; [reflexivity|].
    intros s1 c1. cbv beta.
    destruct (Nat.ltb_spec (String.length s1) (String.length s));
      [apply IH; lia | reflexivity].
Qed.

End Repetition.

(** ** The language of a pattern *)

Section Language.

Variable ic : bool.

Lemma under_within hi count : Re.under hi count = true -> within hi (S count).
Proof.
  destruct hi as [h|]; [|done]. cbn. intros H%Nat.ltb_lt. lia.
Qed.

Lemma within_under hi count n :
  within hi (count + S n) -> Re.under hi count = true.
Proof.
  destruct hi as [h|]; [|done]. cbn. intros H. apply Nat.ltb_lt. lia.
Qed.

(** Soundness: what [run] reads before it calls its continuation is a
    string of the pattern. *)
Lemma run_sound (r : Re.regex) : forall s c k res,
  Re.run ic r s c k = Some res ->
  exists w s' c', s = w +:+ s' /\ lang ic r w /\ k s' c' = Some res.
Proof.
  induction r as [| p | | negated items | r1 IH1 r2 IH2 | r1 IH1 r2 IH2
                  | lo hi r' IH | n r' IH]; intros s c k res.
  - cbn [Re.run]. intros H. by exists EmptyString, s, c.
  - cbn [Re.run]. destruct s as [|x s]; [discriminate|].
    destruct (Re.char_eq ic p x) eqn:E; [|discriminate].
    intros H. exists (String x EmptyString), s, c. cbn [lang]. eauto.
  - cbn [Re.run]. destruct s as [|x s]; [discriminate|].
    destruct (Ascii.eqb_spec x "010"); [discriminate|].
    intros H. exists (String x EmptyString), s, c. cbn [lang]. eauto.
  - cbn [Re.run]. destruct s as [|x s]; [discriminate|].
    destruct (Re.in_set ic negated items x) eqn:E; [|discriminate].
    intros H. exists (String x EmptyString), s, c. cbn [lang]. eauto.
  - cbn [Re.run]. intros (w1 & s1 & c1 & -> & Hw1 & H)%IH1.
    apply IH2 in H as (w2 & s2 & c2 & -> & Hw2 & H).
    exists (w1 +:+ w2), s2, c2. rewrite append_assoc. cbn [lang]. eauto 10.
  - cbn [Re.run]. destruct (Re.run ic r1 s c k) as [res1|] eqn:E1.
    + intros [= <-]. apply IH1 in E1 as (w & s' & c' & -> & Hw & H).
      exists w, s', c'. cbn [lang]. eauto.
    + intros (w & s' & c' & -> & Hw & H)%IH2.
      exists w, s', c'. cbn [lang]. eauto.
  - rewrite run_rep.
    enough (forall fuel count s c,
               within hi count ->
               rep_loop ic lo hi r' k fuel count s c = Some res ->
               exists ws s' c',
                 s = str_concat ws +:+ s' /\ Forall (lang ic r') ws
                 /\ (lo <= count + length ws)%nat
                 /\ within hi (count + length ws)
                 /\ k s' c' = Some res) as Hloop.
    { intros H.
      assert (within hi 0) as H0 by (destruct hi; cbn; [lia | done]).
      destruct (Hloop _ _ _ _ H0 H) as (ws & s' & c' & -> & Hws & Hlo & Hhi & Hk).
      exists (str_concat ws), s', c'. cbn [lang]. eauto 10. }
    clear s c. induction fuel as [|fuel IHf]; intros count s c Hcount.
    + cbn [rep_loop]. destruct (Nat.leb_spec lo count) as [Hle|]; [|discriminate].
      intros Hres. exists [], s, c. cbn [length str_concat fold_right].
      rewrite Nat.add_0_r. eauto 10.
    + cbn [rep_loop]. destruct (Re.under hi count) eqn:Hu.
      * match goal with
        | |- match ?m with _ => _ end = _ -> _ => destruct m as [res1|] eqn:E1
        end.
        -- intros [= <-].
           apply IH in E1 as (w1 & s1 & c1 & -> & Hw1 & H).
           destruct (String.length s1 <? _)%nat; [|discriminate].
           apply IHf in H as (ws & s' & c' & -> & Hws & Hlo & Hhi & H);
             [|by apply under_within].
           exists (w1 :: ws), s', c'. cbn [length str_concat fold_right].
           fold (str_concat ws). rewrite append_assoc, Nat.add_succ_r.
           eauto 10.
        -- destruct (Nat.leb_spec lo count) as [Hle|]; [|discriminate].
           intros Hres. exists [], s, c. cbn [length str_concat fold_right].
           rewrite Nat.add_0_r. eauto 10.
      * destruct (Nat.leb_spec lo count) as [Hle|]; [|discriminate].
        intros Hres. exists [], s, c. cbn [length str_concat fold_right].
        rewrite Nat.add_0_r. eauto 10.
  - cbn [Re.run]. intros (w & s' & c' & -> & Hw & H)%IH.
    exists w, s', ((n, Re.consumed (w +:+ s') s') :: c'). cbn [lang]. eauto.
Qed.

(** A pattern that is not nullable denotes no empty string. *)
Lemma lang_nonempty (r : Re.regex) : forall w,
  Re.nullable r = false -> lang ic r w -> w <> EmptyString.
Proof.
  induction r as [| p | | negated items | r1 IH1 r2 IH2 | r1 IH1 r2 IH2
                  | lo hi r' IH | n r' IH]; intros w; cbn [Re.nullable lang].
  - discriminate.
  - by intros _ (x & -> & _).
  - by intros _ (x & -> & _).
  - by intros _ (x & -> & _).
  - intros Hn (w1 & w2 & -> & H1 & H2).
    apply andb_false_iff in Hn as [Hn|Hn].
    + specialize (IH1 w1 Hn H1). by destruct w1.
    + specialize (IH2 w2 Hn H2). destruct w1; [by rewrite append_nil | done].
  - intros [Hn1 Hn2]%orb_false_iff [H|H]; eauto.
  - intros [Hlo Hn]%orb_false_iff (ws & -> & Hws & Hlen & _).
    apply Nat.eqb_neq in Hlo.
    destruct Hws as [|w1 ws Hw1 _]; [cbn in Hlen; lia|].
    specialize (IH w1 Hn Hw1). cbn [str_concat fold_right].
    by destruct w1.
  - apply IH.
Qed.

(** Completeness: when the text starts with a string of the pattern after
    which the continuation succeeds whatever the groups, [run] succeeds. *)
Lemma run_complete (r : Re.regex) : forall w s' c k,
  Re.well_formed r = true -> lang ic r w ->
  (forall c', k s' c' <> None) ->
  Re.run ic r (w +:+ s') c k <> None.
Proof.
  induction r as [| p | | negated items | r1 IH1 r2 IH2 | r1 IH1 r2 IH2
                  | lo hi r' IH | n r' IH]; intros w s' c k Hwf Hw Hk.
  - cbn [lang] in Hw. subst w. cbn [Re.run]. apply Hk.
  - destruct Hw as (x & -> & Hx). cbn [Re.run]. rewrite append_cons, append_nil, Hx.
    apply Hk.
  - destruct Hw as (x & -> & Hx). cbn [Re.run]. rewrite append_cons, append_nil.
    destruct (Ascii.eqb_spec x "010"); [done | apply Hk].
  - destruct Hw as (x & -> & Hx). cbn [Re.run]. rewrite append_cons, append_nil, Hx.
    apply Hk.
  - destruct Hw as (w1 & w2 & -> & Hw1 & Hw2).
    cbn [Re.well_formed] in Hwf. apply andb_true_iff in Hwf as [Hwf1 Hwf2].
    cbn [Re.run]. rewrite append_assoc.
    apply IH1; [done..|]. intros c1. by apply IH2.
  - cbn [Re.well_formed] in Hwf. apply andb_true_iff in Hwf as [Hwf1 Hwf2].
    cbn [Re.run].
    destruct (Re.run ic r1 (w +:+ s') c k) as [res1|] eqn:E1; [done|].
    destruct Hw as [Hw|Hw]; [|by apply IH2].
    exfalso. by apply (IH1 w s' c k).
  - cbn [Re.well_formed] in Hwf. apply andb_true_iff in Hwf as [Hn Hwf].
    apply negb_true_iff in Hn.
    destruct Hw as (ws & -> & Hws & Hlo & Hhi).
    rewrite run_rep.
    generalize (Nat.le_refl (String.length (str_concat ws +:+ s'))).
    generalize (String.length (str_concat ws +:+ s')) at 2 3 as fuel.
    change (length ws) with (0 + length ws)%nat in Hlo, Hhi.
    revert Hlo Hhi. generalize 0%nat as count. intros count Hlo Hhi fuel.
    revert count fuel c Hlo Hhi.
    induction Hws as [|w1 ws Hw1 Hws IHws]; intros count fuel c Hlo Hhi Hfuel.
    + cbn [str_concat fold_right length] in *. rewrite append_nil in *.
      rewrite Nat.add_0_r in Hlo.
      destruct fuel as [|fuel]; cbn [rep_loop].
      * destruct (Nat.leb_spec lo count); [apply Hk | lia].
      * match goal with
        | |- match ?m with _ => _ end <> _ => destruct m as [res1|]
        end; [done|].
        destruct (Nat.leb_spec lo count); [apply Hk | lia].
    + cbn [str_concat fold_right length] in *. fold (str_concat ws) in *.
      rewrite append_assoc in *.
      assert (w1 <> EmptyString) as Hne by (by apply (lang_nonempty r')).
      rewrite length_append in Hfuel.
      assert (0 < String.length w1)%nat by (destruct w1; [done | cbn; lia]).
      destruct fuel as [|fuel]; [lia|]. cbn [rep_loop].
      rewrite (within_under hi count (length ws) Hhi).
      match goal with
      | |- match ?m with _ => _ end <> _ => destruct m as [res1|] eqn:E1
      end; [done|].
      exfalso. revert E1. apply IH; [done..|].
      intros c1. cbv beta.
      assert ((String.length (str_concat ws +:+ s')
               <? String.length (w1 +:+ str_concat ws +:+ s'))%nat = true)
        as -> by (apply Nat.ltb_lt; rewrite (length_append w1); lia).
      apply IHws; [lia | by rewrite Nat.add_succ_l, <- Nat.add_succ_r | lia].
  - cbn [Re.run]. cbn [Re.well_formed] in Hwf. cbn [lang] in Hw.
    apply IH; [done..|]. intros c1. apply Hk.
Qed.

(** What [match_at] reads is a string of the pattern. *)
Lemma match_at_sound (r : Re.regex) s ma s' c' :
  Re.match_at ic r s ma = Some (s', c') -> lang ic r (Re.consumed s s').
Proof.
  unfold Re.match_at. intros (w & s1 & c1 & -> & Hw & H)%run_sound.
  destruct (ma && _) in H; [discriminate|].
  injection H as <- <-. by rewrite consumed_append.
Qed.

Lemma search_sound (r : Re.regex) : forall s ma pos m rest,
  Re.search ic r s ma pos = Some (m, rest) -> lang ic r (Re.m_text m).
Proof.
  induction s as [|x s IH]; intros ma pos m rest; cbn [Re.search];
    destruct (Re.match_at ic r _ ma) as [[s' c']|] eqn:E;
    try discriminate; try (intros [= <- <-]; by apply match_at_sound in E).
  apply IH.
Qed.

(** Every match of [finditer] is a string of the pattern. *)
Lemma scan_lang (r : Re.regex) : forall fuel s ma pos,
  Forall (fun m => lang ic r (Re.m_text m)) (Re.scan fuel ic r s ma pos).
Proof.
  induction fuel as [|fuel IH]; intros s ma pos; cbn [Re.scan]; [constructor|].
  destruct (Re.search ic r s ma pos) as [[m rest]|] eqn:E; [|constructor].
  constructor; [by apply search_sound in E | apply IH].
Qed.

(** A string of the pattern somewhere in the text makes the search
    succeed. *)
Lemma search_complete (r : Re.regex) (w post : string) :
  Re.well_formed r = true -> lang ic r w ->
  forall pre pos, Re.search ic r (pre +:+ w +:+ post) false pos <> None.
Proof.
  intros Hwf Hw.
  assert (forall s, s = w +:+ post -> Re.match_at ic r s false <> None) as Hhere.
  { intros s ->. unfold Re.match_at. by apply run_complete. }
  induction pre as [|x pre IH]; intros pos.
  - rewrite append_nil. specialize (Hhere _ eq_refl).
    destruct (w +:+ post); cbn [Re.search];
      by destruct (Re.match_at ic r _ false) as [[s' c']|].
  - rewrite append_cons. cbn [Re.search].
    destruct (Re.match_at ic r _ false) as [[s' c']|]; [done | apply IH].
Qed.

(** [finditer] finds a match exactly when the pattern has one in the
    text. *)
Lemma finditer_occurs (r : Re.regex) (text : string) :
  Re.well_formed r = true ->
  Re.finditer ic r text <> [] <-> occurs ic r text.
Proof.
  intros Hwf. unfold Re.finditer.
  replace (2 * String.length text + 2)%nat
    with (S (2 * String.length text + 1)) by lia.
  cbn [Re.scan]. split.
  - destruct (Re.search ic r text false 0) as [[m rest]|] eqn:E; [|done].
    intros _. pose proof (search_sound r _ _ _ _ _ E) as Hm.
    apply search_spec in E as (gap & Htext & _).
    by exists gap, (Re.m_text m), rest.
  - intros (pre & w & post & -> & Hw).
    pose proof (search_complete r w post Hwf Hw pre 0) as H.
    by destruct (Re.search ic r _ false 0) as [[m rest]|].
Qed.

End Language.

Lemma compile_well_formed (pattern : string) (r : Re.regex) (g : nat) :
  Re.compile pattern = Some (r, g) -> Re.well_formed r = true.
Proof.
  unfold Re.compile.
  destruct (Re.parse_alt _ 0 pattern) as [[[r' g'] [|? ?]]|]; try discriminate.
  destruct (Re.well_formed r') eqn:E; [|discriminate].
  by intros [= <- <-].
Qed.

(** ** Pattern scanner *)

Section Scanner.

Variable text : string.

(** The position given to [search] only shifts the offset it reports. *)
Lemma search_pos ic r (s : string) ma (pos pos' : nat) :
  Re.search ic r s ma pos' =
  (fun '(m, rest) =>
     (Re.Match (Re.m_start m - pos + pos') (Re.m_text m) (Re.m_groups m), rest))
    <$> Re.search ic r s ma pos.
Proof.
  revert ma pos pos'. induction s as [|c s IH]; intros ma pos pos'.
  - cbn [Re.search]. destruct (Re.match_at ic r "" ma) as [[s' c']|]; cbn;
      [|reflexivity].
    do 3 f_equal. lia.
  - cbn [Re.search]. destruct (Re.match_at ic r (String c s) ma) as [[s' c']|]; cbn.
    + do 3 f_equal. lia.
    + rewrite (IH false (S pos) (S pos')).
      destruct (Re.search ic r s false (S pos)) as [[m rest]|] eqn:E; cbn;
        [|reflexivity].
      do 3 f_equal.
      enough (S pos <= Re.m_start m)%nat by lia.
      clear -E. revert E. generalize (S pos) as p. generalize false as ma.
      induction s as [|c s IH]; intros ma p; cbn [Re.search];
        destruct (Re.match_at ic r _ ma) as [[s' c']|].
      * intros [= <- _]. cbn. lia.
      * discriminate.
      * intros [= <- _]. cbn. lia.
      * intros E%IH. lia.
Qed.

Lemma count_from_length fuel ic r (s : string) ma pos :
  count_from fuel ic r s ma = length (Re.scan fuel ic r s ma pos).
Proof.
  revert s ma pos. induction fuel as [|fuel IH]; intros s ma pos; [reflexivity|].
  cbn [count_from Re.scan]. rewrite (search_pos ic r s ma pos 0).
  destruct (Re.search ic r s ma pos) as [[m rest]|]; cbn; [|reflexivity].
  f_equal. apply IH.
Qed.

Lemma count_matches_length ic r :
  count_matches ic r text = length (Re.finditer ic r text).
Proof. apply count_from_length. Qed.

Lemma first_match_head ic r :
  first_match ic r text = Re.m_text <$> head (Re.finditer ic r text).
Proof.
  unfold first_match, Re.finditer.
  replace (2 * String.length text + 2)%nat
    with (S (2 * String.length text + 1)) by lia.
  cbn [Re.scan]. by destruct (Re.search ic r text false 0) as [[m rest]|].
Qed.

Lemma bind_Ok {A B} (a : A) (k : A -> outcome B) : (Ok a ≫= k) = k a.
Proof. reflexivity. Qed.

Lemma omap_cons {A B} (f : A -> option B) (x : A) (l : list A) :
  omap f (x :: l) =
  match f x with Some y => y :: omap f l | None => omap f l end.
Proof. reflexivity. Qed.

Lemma scan_rule_finding_for sev findings l rule :
  compiles rule -> findings !! sev = Some l ->
  scan_rule text sev findings rule =
  Ok (match finding_for text rule with
      | Some f => <[sev := l ++ [f]]> findings
      | None => findings
      end).
Proof.
  intros [[r g] Hc] Hl. unfold scan_rule, Re.findall, finding_for.
  rewrite Hc, bind_Ok.
  destruct (Re.finditer true r text) as [|m ms]; [reflexivity|].
  cbn [map]. rewrite Hl. cbn [length]. rewrite length_map. reflexivity.
Qed.

Lemma scan_rules_omap sev rules : forall findings l,
  Forall compiles rules -> findings !! sev = Some l ->
  for_each (scan_rule text sev) rules findings =
  Ok (<[sev := l ++ omap (finding_for text) rules]> findings).
Proof.
  induction rules as [|rule rules IH]; intros findings l Hc Hl.
  - cbn [for_each omap]. rewrite app_nil_r, insert_id by done. reflexivity.
  - apply Forall_cons in Hc as [Hrule Hrules]. cbn [for_each].
    rewrite omap_cons.
    rewrite (scan_rule_finding_for sev findings l rule Hrule Hl), bind_Ok.
    destruct (finding_for text rule) as [f|].
    + rewrite (IH _ (l ++ [f]) Hrules) by apply lookup_insert_eq.
      rewrite insert_insert_eq, <- app_assoc. reflexivity.
    + by apply IH.
Qed.

Lemma scan_catalogue cat : forall findings,
  Forall (fun '(sev, rules) => is_Some (findings !! sev)
                               /\ Forall compiles rules) cat ->
  for_each (fun findings '(severity, patterns) =>
              for_each (scan_rule text severity) patterns findings)
           cat findings
  = Ok (scanned text cat findings).
Proof.
  induction cat as [|[sev rules] cat IH]; intros findings Hcat; [reflexivity|].
  apply Forall_cons in Hcat as [[[l Hl] Hrules] Hcat].
  change (scanned text ((sev, rules) :: cat) findings)
    with (scanned text cat (<[sev := tier findings sev
                                ++ omap (finding_for text) rules]> findings)).
  assert (tier findings sev = l) as -> by (unfold tier; by rewrite Hl).
  cbn [for_each].
  rewrite (scan_rules_omap sev rules findings l Hrules Hl), bind_Ok.
  apply IH. eapply Forall_impl; [exact Hcat|].
  intros [sev' rules'] [Hs Hr]. split; [|done].
  destruct (decide (sev = sev')) as [->|Hne].
  - rewrite lookup_insert_eq. eauto.
  - by rewrite lookup_insert_ne.
Qed.

Lemma compilesb_compiles rule : compilesb rule = true -> compiles rule.
Proof.
  unfold compilesb, compiles.
  destruct (Re.compile (pi_pattern rule)); [eauto | discriminate].
Qed.

Lemma catalogue_compiles :
  Forall (fun '(sev, rules) => Forall compiles rules) DANGEROUS_PATTERNS.
Proof.
  assert (forallb (fun '(sev, rules) => forallb compilesb rules)
                  DANGEROUS_PATTERNS = true) as H by (vm_compute; reflexivity).
  rewrite forallb_forall in H. apply Forall_forall.
  intros [sev rules] Hin%list_elem_of_In%H.
  rewrite forallb_forall in Hin. apply Forall_forall.
  intros rule Hr%list_elem_of_In%Hin. by apply compilesb_compiles.
Qed.

Lemma scanned_other cat : forall findings k,
  k ∉ cat.*1 -> scanned text cat findings !! k = findings !! k.
Proof.
  induction cat as [|[sev rules] cat IH]; intros findings k Hk; [reflexivity|].
  cbn [fmap list_fmap fst] in Hk. apply not_elem_of_cons in Hk as [Hne Hk].
  change (scanned text ((sev, rules) :: cat) findings)
    with (scanned text cat (<[sev := tier findings sev
                                ++ omap (finding_for text) rules]> findings)).
  rewrite (IH _ k Hk). by rewrite lookup_insert_ne.
Qed.

Lemma scanned_tier cat : forall findings sev rules,
  NoDup (cat.*1) -> (sev, rules) ∈ cat ->
  tier (scanned text cat findings) sev
  = tier findings sev ++ omap (finding_for text) rules.
Proof.
  induction cat as [|[sev' rules'] cat IH]; intros findings sev rules Hnd Hin.
  - by apply elem_of_nil in Hin.
  - cbn [fmap list_fmap fst] in Hnd. apply NoDup_cons in Hnd as [Hfresh Hnd].
    change (scanned text ((sev', rules') :: cat) findings)
      with (scanned text cat (<[sev' := tier findings sev'
                                   ++ omap (finding_for text) rules']> findings)).
    apply elem_of_cons in Hin as [[= -> ->]|Hin].
    + unfold tier at 1. rewrite (scanned_other cat _ sev' Hfresh).
      by rewrite lookup_insert_eq.
    + rewrite (IH _ sev rules Hnd Hin).
      assert (sev' <> sev) as Hne.
      { intros ->. apply Hfresh. apply list_elem_of_fmap.
        by exists (sev, rules). }
      by rewrite tier_insert_ne.
Qed.

Lemma NoDup_fmap_eq {A B} (f : A -> B) (l : list A) (x y : A) :
  NoDup (f <$> l) -> x ∈ l -> y ∈ l -> f x = f y -> x = y.
Proof.
  induction l as [|a l IH]; intros Hnd Hx Hy Hf.
  - by apply elem_of_nil in Hx.
  - cbn [fmap list_fmap] in Hnd. apply NoDup_cons in Hnd as [Hfresh Hnd].
    apply elem_of_cons in Hx as [->|Hx]; apply elem_of_cons in Hy as [->|Hy].
    + reflexivity.
    + exfalso. apply Hfresh. rewrite Hf. apply list_elem_of_fmap. eauto.
    + exfalso. apply Hfresh. rewrite <- Hf. apply list_elem_of_fmap. eauto.
    + by apply IH.
Qed.

Lemma finding_for_Some rule f :
  finding_for text rule = Some f ->
  name f = pi_name rule
  /\ exists r g, Re.compile (pi_pattern rule) = Some (r, g)
                 /\ occurrences f = length (Re.finditer true r text)
                 /\ Some (sample f) = Re.item g <$> head (Re.finditer true r text).
Proof.
  unfold finding_for.
  destruct (Re.compile (pi_pattern rule)) as [[r g]|]; [|discriminate].
  destruct (Re.finditer true r text) as [|m ms] eqn:E; [discriminate|].
  intros [= <-]. split; [reflexivity|]. exists r, g. by rewrite E.
Qed.

Lemma finding_for_is_Some rule r g :
  Re.compile (pi_pattern rule) = Some (r, g) ->
  is_Some (finding_for text rule) <-> (1 <= length (Re.finditer true r text))%nat.
Proof.
  intros Hc. unfold finding_for. rewrite Hc.
  destruct (Re.finditer true r text) as [|m ms]; cbn [length].
  - split; [by intros [? ?] | lia].
  - split; [lia | eauto].
Qed.

(** The Findings of a tier with the name of [rule] are the one Finding
    the rule contributes. *)
Lemma omap_finding_for (rules : list pattern_info) (rule : pattern_info)
    (f : finding) :
  NoDup (pi_name <$> rules) -> rule ∈ rules ->
  (f ∈ omap (finding_for text) rules /\ name f = pi_name rule)
  <-> finding_for text rule = Some f.
Proof.
  intros Hnd Hrule. rewrite list_elem_of_omap. split.
  - intros [(rule' & Hin & Hf) Hname].
    destruct (finding_for_Some rule' f Hf) as [Hname' _].
    replace rule with rule'; [done|].
    apply (NoDup_fmap_eq pi_name rules); [done..|congruence].
  - intros Hf. split; [eauto|]. by destruct (finding_for_Some rule f Hf).
Qed.

Lemma tier_initial (k : string) : tier initial_findings k = [].
Proof.
  unfold tier, initial_findings.
  rewrite !lookup_insert. repeat case_decide; reflexivity.
Qed.

Lemma catalogue_keys :
  NoDup (DANGEROUS_PATTERNS.*1)
  /\ Forall (fun '(sev, rules) => is_Some (initial_findings !! sev)
                                  /\ NoDup (pi_name <$> rules))
            DANGEROUS_PATTERNS.
Proof.
  split.
  - apply (bool_decide_unpack _). vm_compute. exact I.
  - unfold DANGEROUS_PATTERNS.
    repeat (apply Forall_cons; split; [split|]); try apply Forall_nil;
      try (apply (bool_decide_unpack _); vm_compute; exact I);
      vm_compute; eauto.
Qed.

Lemma scan_for_patterns_scanned :
  scan_for_patterns text = Ok (scanned text DANGEROUS_PATTERNS initial_findings).
Proof.
  unfold scan_for_patterns. fold initial_findings.
  apply scan_catalogue.
  pose proof catalogue_compiles as Hc. destruct catalogue_keys as [_ Hk].
  rewrite Forall_forall in Hc, Hk. apply Forall_forall.
  intros [sev rules] Hin. specialize (Hc _ Hin). specialize (Hk _ Hin).
  cbn in *. tauto.
Qed.

(** C4.  For every text and every rule of the catalogue, the scanner
    produces a Finding for the rule exactly when the pattern has a
    case-insensitive match somewhere in the text; the Finding is the only
    one for the rule, and its occurrence count is the number of matches
    found from left to right without overlap, hence at least 1. *)
Theorem scanner_counts_matches (sev : string) (rules : list pattern_info)
    (rule : pattern_info) :
  (sev, rules) ∈ DANGEROUS_PATTERNS -> rule ∈ rules ->
  exists findings r g,
    scan_for_patterns text = Ok findings
    /\ Re.compile (pi_pattern rule) = Some (r, g)
    /\ let ms := Re.finditer true r text in
       let n := count_matches true r text in
       let produced f := f ∈ tier findings sev /\ name f = pi_name rule in
       ((exists f, produced f) <-> occurs true r text)
       /\ (forall f, produced f ->
             occurrences f = n /\ (1 <= occurrences f)%nat)
       /\ (forall f f', produced f -> produced f' -> f = f')
       /\ n = length ms
       /\ tiled 0 text ms
       /\ Forall (fun m => lang true r (Re.m_text m)) ms.
Proof.
  intros Hcat Hrule.
  pose proof catalogue_compiles as Hc. destruct catalogue_keys as [Hnd Hk].
  rewrite Forall_forall in Hc, Hk.
  specialize (Hc _ Hcat). specialize (Hk _ Hcat). cbn in Hc, Hk.
  destruct Hk as [_ Hnames].
  rewrite Forall_forall in Hc. destruct (Hc _ Hrule) as [[r g] Hcomp].
  exists (scanned text DANGEROUS_PATTERNS initial_findings), r, g.
  split; [apply scan_for_patterns_scanned|]. split; [exact Hcomp|].
  intros ms n produced. subst ms n produced. cbv beta.
  rewrite (scanned_tier _ _ sev rules Hnd Hcat), tier_initial, app_nil_l.
  rewrite count_matches_length.
  split; [|split; [|split; [|split; [|split]]]].
  - rewrite <- (finditer_occurs true r text (compile_well_formed _ _ _ Hcomp)).
    transitivity (is_Some (finding_for text rule)).
    + unfold is_Some.
      split; intros [f Hf]; exists f; by apply (omap_finding_for rules rule f).
    + rewrite (finding_for_is_Some rule r g Hcomp).
      destruct (Re.finditer true r text); cbn [length]; split; (done || lia).
  - intros f Hf%(omap_finding_for rules rule f Hnames Hrule).
    destruct (finding_for_Some rule f Hf) as (_ & r' & g' & Hcomp' & Hocc & _).
    rewrite Hcomp in Hcomp'. injection Hcomp' as <- <-.
    split; [exact Hocc|]. rewrite Hocc.
    apply (finding_for_is_Some rule r g Hcomp). eauto.
  - intros f f' Hf%(omap_finding_for rules rule f Hnames Hrule)
                  Hf'%(omap_finding_for rules rule f' Hnames Hrule).
    congruence.
  - reflexivity.
  - apply finditer_tiled.
  - apply scan_lang.
Qed.

End Scanner.

(** Two destructive calls in one text: the Finding counts both. *)
Lemma scanner_counts_matches_witness :
  let text := "selfdestruct(owner); suicide (x)" in
  let rule := PatternInfo "Self-Destruct" "selfdestruct\s*\(|suicide\s*\("
                "Contract can be destroyed, potentially stealing funds" in
  exists findings f,
    scan_for_patterns text = Ok findings
    /\ f ∈ tier findings "critical"
    /\ name f = "Self-Destruct"
    /\ occurrences f = 2%nat.
Proof.
  intros text rule.
  destruct (scanner_counts_matches text "critical"
              (default [] (snd <$> head DANGEROUS_PATTERNS)) rule)
    as (findings & r & g & Hscan & Hcomp & Hiff & Hocc & _).
  - apply list_elem_of_here.
  - do 3 apply list_elem_of_further. apply list_elem_of_here.
  - pose proof (compile_well_formed _ _ _ Hcomp) as Hwf.
    vm_compute in Hcomp. injection Hcomp as <- <-.
    destruct (proj2 Hiff) as [f Hf].
    { apply (finditer_occurs true _ text Hwf). vm_compute. discriminate. }
    exists findings, f. destruct Hf as [Hin Hname].
    split; [exact Hscan|]. split; [exact Hin|]. split; [exact Hname|].
    exact (proj1 (Hocc f (conj Hin Hname))).
Defined.

(** For a rule whose pattern has no group, the sample is the text of the
    first match. *)
Lemma sample_of_groupless_rule (text sev : string) (rules : list pattern_info)
    (rule : pattern_info) (r : Re.regex)
    (findings : gmap string (list finding)) (f : finding) :
  (sev, rules) ∈ DANGEROUS_PATTERNS -> rule ∈ rules ->
  Re.compile (pi_pattern rule) = Some (r, 0%nat) ->
  scan_for_patterns text = Ok findings ->
  f ∈ tier findings sev -> name f = pi_name rule ->
  Some (sample f) = ItemStr <$> first_match true r text.
Proof.
  intros Hcat Hrule Hcomp Hscan Hin Hname.
  assert (findings = scanned text DANGEROUS_PATTERNS initial_findings) as ->
    by (rewrite scan_for_patterns_scanned in Hscan; congruence).
  destruct catalogue_keys as [Hnd Hk]. rewrite Forall_forall in Hk.
  destruct (Hk _ Hcat) as [_ Hnames].
  rewrite (scanned_tier _ _ _ sev rules Hnd Hcat), tier_initial, app_nil_l in Hin.
  assert (finding_for text rule = Some f) as Hf
    by (by apply (omap_finding_for text rules rule f)).
  destruct (finding_for_Some text rule f Hf) as (_ & r' & g' & Hcomp' & _ & Hs).
  rewrite Hcomp in Hcomp'. injection Hcomp' as <- <-.
  rewrite Hs, first_match_head.
  by destruct (head (Re.finditer true r text)).
Qed.

(** Fourteen of the seventeen rules have a pattern without groups; the
    patterns of Hidden Mint and Blacklist Function have one group, that of
    High Tax/Fee has two. *)
Example catalogue_groups :
  map (fun '(sev, rules) =>
         map (fun rule => snd <$> Re.compile (pi_pattern rule)) rules)
      DANGEROUS_PATTERNS
  = [[Some 1; Some 0; Some 1; Some 0; Some 0]%nat;
     [Some 0; Some 0; Some 0; Some 2; Some 0]%nat;
     [Some 0; Some 0; Some 0; Some 0]%nat;
     [Some 0; Some 0; Some 0]%nat].
Proof. vm_compute. reflexivity. Qed.

(** C8, at an input where the code departs from it.  In
    [function mint() public] the Hidden Mint pattern matches the whole
    text, yet the sample of the Finding is [public], the text of the
    pattern's group. *)
Theorem sample_is_group_text :
  let text := "function mint() public" in
  let pattern :=
    "function\s+\w*[Mm]int\w*\s*\([^)]*\)\s*(external|public|internal)" in
  (findings ← scan_for_patterns text; Ok (tier findings "critical"))
  = Ok [Finding "Hidden Mint" "Owner can create unlimited tokens"
                1 (ItemStr "public")]
  /\ ('(r, g) ← Re.compile pattern; first_match true r text)
     = Some "function mint() public"
  /\ (snd <$> Re.compile pattern) = Some 1%nat.
Proof. repeat split; vm_compute; reflexivity. Qed.

(** The other two rules with groups: a blacklist function gives the empty
    string as sample, a fee assignment gives a pair. *)
Example samples_of_grouped_rules :
  (findings ← scan_for_patterns "function blacklist(address a)";
   Ok (tier findings "critical"))
  = Ok [Finding "Blacklist Function"
                "Contract can blacklist addresses from trading"
                1 (ItemStr "")]
  /\ (findings ← scan_for_patterns "uint fee = 10;";
      Ok (tier findings "high"))
     = Ok [Finding "High Tax/Fee"
                   "Adjustable fees could be set extremely high"
                   1 (ItemTuple ["fee"; "10"])].
Proof. split; vm_compute; reflexivity. Qed.

(** ** Scenarios of the design document *)

(** A verified source with one [selfdestruct(] call and no log events: one
    critical Finding, score 5, Medium. *)
Example scenario_selfdestruct :
  (findings ← scan_for_patterns "contract T { function kill() public { selfdestruct(payable(msg.sender)); } }";
   Ok (tier findings "critical", tier findings "high", tier findings "medium",
       calculate_risk_score findings true
         (check_ownership_status (LogsReply (Some "0") (Some [])))))
  = Ok ([Finding "Self-Destruct"
                 "Contract can be destroyed, potentially stealing funds"
                 1 (ItemStr "selfdestruct(")],
        [], [], (5, "Medium")).
Proof. vm_compute. reflexivity. Qed.

(** No source, hence no scan and an empty dict of findings, and no log
    events: score 6, High. *)
Example scenario_unverified :
  fetch_contract_source
    (SourceReply (Some "1") (Some [SourceEntry (Some "") (Some "")]))
  = Ok (false, "", "")
  /\ calculate_risk_score ∅ false
       (check_ownership_status (LogsReply (Some "0") None))
     = (6, "High").
Proof. split; vm_compute; reflexivity. Qed.

(** * Further properties *)

(** ** Ownership resolver, further *)

Lemma status_is_1_true (st : option string) :
  status_is_1 st = true <-> st = Some "1".
Proof.
  destruct st as [st|]; cbn [status_is_1]; [|split; discriminate].
  rewrite String.eqb_eq. split; [by intros -> | by intros [= ->]].
Qed.

(** The resolver on the list of events of a success reply. *)
Lemma check_ownership_status_snoc (earlier : list log_event) (e : log_event) :
  check_ownership_status (LogsReply (Some "1") (Some (earlier ++ [e]))) =
  let topics := default [] (topics e) in
  let n := length (earlier ++ [e]) in
  if (3 <=? length topics)%nat then
    match topics !! 2%nat with
    | Some new_owner =>
        if String.eqb new_owner zero_topic
        then OwnershipInfo true "0x0000000000000000000000000000000000000000" n
        else OwnershipInfo false ("0x" +:+ Py.str_last 40 new_owner) n
    | None => OwnershipInfo false "Unknown" n
    end
  else OwnershipInfo false "Unknown" n.
Proof.
  apply (check_ownership_status_last _ (earlier ++ [e]) e);
    [reflexivity | reflexivity | apply last_snoc].
Qed.

Lemma check_ownership_status_failure (data : logs_reply) :
  status data <> Some "1" \/ default [] (result data) = [] ->
  check_ownership_status data = unknown_owner.
Proof.
  intros H. unfold check_ownership_status.
  destruct (status_is_1 (status data)) eqn:E.
  - apply status_is_1_true in E. destruct H as [H|H]; [done|].
    rewrite H. reflexivity.
  - reflexivity.
Qed.

(** Last event wins: what came before the last event only counts in
    [transfer_events]. *)
Theorem last_event_wins (st : option string) (earlier earlier' : list log_event)
    (e : log_event) :
  let a := check_ownership_status (LogsReply st (Some (earlier ++ [e]))) in
  let b := check_ownership_status (LogsReply st (Some (earlier' ++ [e]))) in
  renounced a = renounced b
  /\ current_owner a = current_owner b
  /\ (st = Some "1" ->
      transfer_events a = S (length earlier)
      /\ transfer_events b = S (length earlier')).
Proof.
  intros a b. subst a b.
  destruct (decide (st = Some "1")) as [->|Hst].
  - rewrite !check_ownership_status_snoc. cbv zeta.
    rewrite !length_app. cbn [length]. rewrite !Nat.add_1_r.
    destruct (3 <=? _)%nat; [|by repeat split].
    destruct (_ !! 2%nat) as [new_owner|]; [|by repeat split].
    destruct (String.eqb new_owner zero_topic); by repeat split.
  - rewrite !check_ownership_status_failure by (left; exact Hst).
    by repeat split.
Qed.

Lemma snoc_cases {A} (l : list A) : l = [] \/ exists l' x, l = l' ++ [x].
Proof.
  induction l as [|x l IH] using rev_ind; [by left | right; eauto].
Qed.

(** Renounced is reported exactly for a success reply whose last event has
    [0x] and 64 zeros as third topic; the owner is then the zero address. *)
Theorem renounced_iff (data : logs_reply) :
  (renounced (check_ownership_status data) = true <->
   status data = Some "1"
   /\ exists earlier e t0 t1 more,
        result data = Some (earlier ++ [e])
        /\ topics e = Some (t0 :: t1 :: zero_topic :: more))
  /\ (renounced (check_ownership_status data) = true ->
      current_owner (check_ownership_status data) = "0x" +:+ zero_address).
Proof.
  destruct data as [st res]. cbn [status result].
  destruct (decide (st = Some "1")) as [->|Hst].
  2: { rewrite check_ownership_status_failure by (left; exact Hst).
       split; [|discriminate]. split; [discriminate | by intros [? _]]. }
  destruct res as [events|].
  2: { rewrite check_ownership_status_failure by (by right).
       split; [|discriminate].
       split; [discriminate | by intros [_ (? & ? & ? & ? & ? & ? & _)]]. }
  destruct (snoc_cases events) as [->|(earlier & e & ->)].
  { rewrite check_ownership_status_failure by (by right).
    split; [|discriminate]. split; [discriminate|].
    intros [_ (earlier & e & ? & ? & ? & [= H] & _)].
    by destruct earlier. }
  rewrite check_ownership_status_snoc. cbv zeta.
  destruct (topics e) as [[|t0 [|t1 [|t2 more]]]|] eqn:Et;
    cbn [default from_option id length Nat.leb lookup list_lookup];
    try (split; [|discriminate]; split; [discriminate|];
         intros [_ (earlier' & e' & ? & ? & ? & [= H%app_inj_tail] & Ht)];
         destruct H as [_ <-]; congruence).
  destruct (String.eqb_spec t2 zero_topic) as [->|Hne]; cbn [renounced current_owner].
  - split; [|reflexivity]. split; [|reflexivity].
    intros _. split; [reflexivity|]. by exists earlier, e, t0, t1, more.
  - split; [|discriminate]. split; [discriminate|].
    intros [_ (earlier' & e' & ? & ? & ? & [= H%app_inj_tail] & Ht)].
    destruct H as [_ <-]. congruence.
Qed.

Lemma str_drop_length_eq (n : nat) (s : string) :
  String.length (Py.str_drop n s) = (String.length s - n)%nat.
Proof.
  revert s. induction n as [|n IH]; intros [|c s]; cbn [Py.str_drop String.length];
    try lia. apply IH.
Qed.

Lemma str_last_length (n : nat) (s : string) :
  String.length (Py.str_last n s) = Nat.min n (String.length s).
Proof. unfold Py.str_last. rewrite str_drop_length_eq. lia. Qed.

(** The owner the resolver reports is ["Unknown"] or [0x] followed by at
    most 40 characters; a report without events is the initial one, and
    an ["Unknown"] owner is never reported as renounced. *)
Theorem owner_format (data : logs_reply) :
  let info := check_ownership_status data in
  (current_owner info = "Unknown"
   \/ exists digits, current_owner info = "0x" +:+ digits
                     /\ (String.length digits <= 40)%nat)
  /\ (transfer_events info = 0%nat -> info = unknown_owner)
  /\ (current_owner info = "Unknown" -> renounced info = false).
Proof.
  intros info. subst info.
  destruct data as [st res].
  destruct (decide (st = Some "1")) as [->|Hst].
  2: { rewrite check_ownership_status_failure by (left; exact Hst).
       split; [by left | done]. }
  destruct res as [events|].
  2: { rewrite check_ownership_status_failure by (by right).
       split; [by left | done]. }
  destruct (snoc_cases events) as [->|(earlier & e & ->)].
  { rewrite check_ownership_status_failure by (by right).
    split; [by left | done]. }
  rewrite check_ownership_status_snoc. cbv zeta.
  rewrite length_app. cbn [length]. rewrite Nat.add_1_r.
  destruct (3 <=? _)%nat; [|split; [by left | done]].
  destruct (_ !! 2%nat) as [new_owner|]; [|split; [by left | done]].
  destruct (String.eqb new_owner zero_topic); cbn [current_owner transfer_events renounced].
  - split; [|done]. right. exists zero_address. split; [reflexivity|].
    change (String.length zero_address) with 40%nat. lia.
  - split; [|done]. right. exists (Py.str_last 40 new_owner).
    split; [reflexivity|]. rewrite str_last_length. lia.
Qed.

(** ** Risk aggregator, further *)

(** The pair the aggregator returns, from the weighted sum in halves. *)
Lemma risk_closed findings is_verified ownership :
  calculate_risk_score findings is_verified ownership =
  let score := Z.min 10 (Z.max 1 (halves findings is_verified ownership / 2)) in
  (score, category_name (ladder score)).
Proof.
  pose proof (risk_score_closed findings is_verified ownership) as Hs.
  fold (halves findings is_verified ownership) in Hs.
  cbv zeta. rewrite <- Hs. unfold calculate_risk_score. cbn [fst].
  set (s := Z.min 10 _). f_equal. unfold ladder.
  destruct (8 <=? s), (6 <=? s), (4 <=? s); reflexivity.
Qed.

Lemma halves_nonneg findings is_verified ownership :
  0 <= halves findings is_verified ownership.
Proof.
  unfold halves, base2. destruct is_verified, (renounced ownership); lia.
Qed.

(** The aggregator reads the verification flag, the flag [renounced] and
    the lengths of three lists, nothing else. *)
Theorem score_reads_three_lengths (f1 f2 : gmap string (list finding))
    (is_verified : bool) (o1 o2 : ownership_info) :
  renounced o1 = renounced o2 ->
  (forall k, k ∈ ["critical"; "high"; "medium"] ->
             length (tier f1 k) = length (tier f2 k)) ->
  calculate_risk_score f1 is_verified o1 = calculate_risk_score f2 is_verified o2.
Proof.
  intros Hr Hlen. rewrite !risk_closed. unfold halves.
  rewrite Hr, !Hlen by set_solver. reflexivity.
Qed.

Lemma halves_insert findings is_verified ownership k (l : list finding) :
  halves (<[k := l]> findings) is_verified ownership =
  halves findings is_verified ownership
  + (if decide (k = "critical") then 6 else
     if decide (k = "high") then 3 else
     if decide (k = "medium") then 1 else 0)
    * (Z.of_nat (length l) - Z.of_nat (length (tier findings k))).
Proof.
  unfold halves.
  repeat case_decide; subst;
    rewrite ?tier_insert_eq, ?tier_insert_ne by done; lia.
Qed.

(** One more Finding raises the score by at most 3, 2 or 1 in the critical,
    high or medium list, and never lowers it; one more info Finding leaves
    it as it is.  An unverified source costs at most 4, an ownership that
    is not renounced at most 2. *)
Theorem score_steps (findings : gmap string (list finding))
    (is_verified : bool) (ownership : ownership_info) (f : finding) :
  let score fs v o := (calculate_risk_score fs v o).1 in
  let s := score findings is_verified ownership in
  let one_more_in k :=
    score (<[k := tier findings k ++ [f]]> findings) is_verified ownership in
  one_more_in "critical" <= s + 3
  /\ s <= one_more_in "high" <= s + 2
  /\ s <= one_more_in "medium" <= s + 1
  /\ one_more_in "info" = s
  /\ score findings true ownership <= score findings false ownership
     <= score findings true ownership + 4
  /\ (forall o o', renounced o = true -> renounced o' = false ->
        score findings is_verified o <= score findings is_verified o'
        <= score findings is_verified o + 2).
Proof.
  intros score s one_more_in. subst score s one_more_in. cbv beta.
  rewrite !risk_closed. cbv zeta. cbn [fst].
  rewrite !halves_insert, !length_app. cbn [length].
  repeat case_decide; try done.
  pose proof (halves_nonneg findings is_verified ownership).
  repeat split; intros; rewrite ?risk_closed; cbv zeta; cbn [fst];
    unfold halves, base2 in *;
    repeat match goal with H : renounced _ = _ |- _ => rewrite H; clear H end;
    destruct is_verified, (renounced ownership);
    cbv beta iota in *; Z.to_euclidean_division_equations; lia.
Qed.

(** The category in terms of the weighted sum [w = halves / 2]: Critical
    from 8, High from 6, Medium from 4, Low below; the score is 10 from a
    sum of 10 and 1 below 2.  So an unverified contract is never Low. *)
Theorem category_thresholds (findings : gmap string (list finding))
    (is_verified : bool) (ownership : ownership_info) :
  let h := halves findings is_verified ownership in
  let score := (calculate_risk_score findings is_verified ownership).1 in
  let level := (calculate_risk_score findings is_verified ownership).2 in
  (level = "Critical" <-> 16 <= h)
  /\ (level = "High" <-> 12 <= h < 16)
  /\ (level = "Medium" <-> 8 <= h < 12)
  /\ (level = "Low" <-> h < 8)
  /\ (score = 10 <-> 20 <= h)
  /\ (score = 1 <-> h < 4)
  /\ (is_verified = false -> 4 <= score /\ level <> "Low")
  /\ (is_verified = false -> renounced ownership = false ->
      6 <= score /\ (level = "High" \/ level = "Critical")).
Proof.
  intros h score level. subst score level. rewrite risk_closed. cbv zeta.
  cbn [fst snd]. fold h.
  assert (0 <= h) as Hh by apply halves_nonneg.
  assert (is_verified = false -> 8 <= h) as Hv.
  { intros ->. unfold h, halves, base2. destruct (renounced ownership); lia. }
  assert (is_verified = false -> renounced ownership = false -> 12 <= h) as Hvo.
  { intros -> Hr. unfold h, halves, base2. rewrite Hr. lia. }
  set (s := Z.min 10 (Z.max 1 (h / 2))).
  assert (s = Z.min 10 (Z.max 1 (h / 2))) as Hs by reflexivity.
  clearbody s h. unfold ladder.
  destruct (Z.leb_spec 8 s), (Z.leb_spec 6 s), (Z.leb_spec 4 s);
    cbn [category_name];
    repeat split; intros; try discriminate; try done;
    try (Z.to_euclidean_division_equations; lia);
    try (specialize (Hv eq_refl); Z.to_euclidean_division_equations; lia);
    try (specialize (Hvo eq_refl); Z.to_euclidean_division_equations; lia);
    try (left; reflexivity); try (right; reflexivity);
    try (exfalso; specialize (Hvo ltac:(done) ltac:(done));
         Z.to_euclidean_division_equations; lia);
    try (exfalso; specialize (Hv ltac:(done));
         Z.to_euclidean_division_equations; lia).
Qed.

(** ** Scanner, further *)

Section ScannerMore.

Variable text : string.

Lemma scanned_is_Some cat : forall (findings : gmap string (list finding)) k,
  is_Some (scanned text cat findings !! k)
  <-> is_Some (findings !! k) \/ k ∈ cat.*1.
Proof.
  induction cat as [|[sev rules] cat IH]; intros findings k.
  - cbn. rewrite elem_of_nil. tauto.
  - change (scanned text ((sev, rules) :: cat) findings)
      with (scanned text cat (<[sev := tier findings sev
                                       ++ omap (finding_for text) rules]> findings)).
    rewrite IH. cbn [fmap list_fmap fst]. rewrite elem_of_cons.
    destruct (decide (sev = k)) as [->|Hne].
    + rewrite lookup_insert_eq. split; [tauto|]. intros _. left. eauto.
    + rewrite lookup_insert_ne by done. split; [tauto|].
      intros [H|[H|H]]; [tauto | congruence | tauto].
Qed.

Lemma scanned_elem cat : forall (findings : gmap string (list finding)) sev f,
  f ∈ tier (scanned text cat findings) sev ->
  f ∈ tier findings sev
  \/ exists rules rule, (sev, rules) ∈ cat /\ rule ∈ rules
                        /\ finding_for text rule = Some f.
Proof.
  induction cat as [|[sev' rules'] cat IH]; intros findings sev f Hf; [by left|].
  change (scanned text ((sev', rules') :: cat) findings)
    with (scanned text cat (<[sev' := tier findings sev'
                                      ++ omap (finding_for text) rules']> findings))
    in Hf.
  apply IH in Hf as [Hf|(rules & rule & Hin & Hrule & Hfor)].
  - destruct (decide (sev' = sev)) as [->|Hne].
    + rewrite tier_insert_eq in Hf. apply elem_of_app in Hf as [Hf|Hf]; [by left|].
      apply list_elem_of_omap in Hf as (rule & Hrule & Hfor).
      right. exists rules', rule. split; [apply list_elem_of_here | done].
    + rewrite tier_insert_ne in Hf by done. by left.
  - right. exists rules, rule. split; [by apply list_elem_of_further | done].
Qed.

Lemma scanned_keys (k : string) :
  is_Some (scanned text DANGEROUS_PATTERNS initial_findings !! k)
  <-> k ∈ severities.
Proof.
  rewrite scanned_is_Some.
  unfold initial_findings, severities. cbn [fmap list_fmap fst DANGEROUS_PATTERNS].
  rewrite !lookup_insert_is_Some, lookup_empty, !elem_of_cons, elem_of_nil.
  pose proof (@is_Some_None (list finding)).
  intuition congruence.
Qed.

(** The scanner returns for every text, and the dict it returns has the
    four severities as keys, no other. *)
Theorem scanner_four_tiers :
  exists findings,
    scan_for_patterns text = Ok findings
    /\ forall k, is_Some (findings !! k) <-> k ∈ severities.
Proof.
  exists (scanned text DANGEROUS_PATTERNS initial_findings).
  split; [apply scan_for_patterns_scanned | apply scanned_keys].
Qed.

Lemma finding_for_label rule f :
  finding_for text rule = Some f -> finding_label f = rule_label rule.
Proof.
  unfold finding_for.
  destruct (Re.compile (pi_pattern rule)) as [[r g]|]; [|discriminate].
  destruct (Re.finditer true r text); [discriminate|]. by intros [= <-].
Qed.

Lemma omap_labels (rules : list pattern_info) :
  finding_label <$> omap (finding_for text) rules `sublist_of` rule_label <$> rules.
Proof.
  induction rules as [|rule rules IH]; [constructor|].
  rewrite omap_cons. cbn [fmap list_fmap].
  destruct (finding_for text rule) as [f|] eqn:E.
  - cbn [fmap list_fmap]. rewrite (finding_for_label rule f E).
    by apply sublist_skip.
  - by apply sublist_cons.
Qed.

(** The Findings of a severity follow the order of the catalogue and copy
    the name and the description of their rules: read as labels, they are
    a sub-list of the rules of the severity. *)
Theorem findings_in_catalogue_order (sev : string) (rules : list pattern_info)
    (findings : gmap string (list finding)) :
  (sev, rules) ∈ DANGEROUS_PATTERNS ->
  scan_for_patterns text = Ok findings ->
  finding_label <$> tier findings sev `sublist_of` rule_label <$> rules
  /\ (length (tier findings sev) <= length rules)%nat
  /\ NoDup (name <$> tier findings sev).
Proof.
  intros Hcat Hscan.
  assert (findings = scanned text DANGEROUS_PATTERNS initial_findings) as ->
    by (rewrite scan_for_patterns_scanned in Hscan; congruence).
  destruct catalogue_keys as [Hnd Hk]. rewrite Forall_forall in Hk.
  destruct (Hk _ Hcat) as [_ Hnames].
  rewrite (scanned_tier _ _ _ sev rules Hnd Hcat), tier_initial, app_nil_l.
  pose proof (omap_labels rules) as Hsub.
  split; [exact Hsub|]. split.
  - apply sublist_length in Hsub. by rewrite !length_fmap in Hsub.
  - assert (name <$> omap (finding_for text) rules
            `sublist_of` pi_name <$> rules) as Hsub'.
    { apply (fmap_sublist fst) in Hsub.
      rewrite <- !list_fmap_compose in Hsub. exact Hsub. }
    by eapply sublist_NoDup.
Qed.

Lemma str_concat_length (k : nat) (ws : list string) :
  Forall (fun w => (k <= String.length w)%nat) ws ->
  (length ws * k <= String.length (str_concat ws))%nat.
Proof.
  induction 1 as [|w ws Hw _ IH]; [done|].
  cbn [str_concat fold_right length]. fold (str_concat ws).
  rewrite length_append. lia.
Qed.

(** A string of a pattern has at least [min_len] characters. *)
Lemma lang_min_len ic (r : Re.regex) : forall w,
  lang ic r w -> (min_len r <= String.length w)%nat.
Proof.
  induction r as [| p | | negated items | r1 IH1 r2 IH2 | r1 IH1 r2 IH2
                  | lo hi r' IH | n r' IH]; intros w; cbn [lang min_len].
  - lia.
  - by intros (x & -> & _).
  - by intros (x & -> & _).
  - by intros (x & -> & _).
  - intros (w1 & w2 & -> & H1%IH1 & H2%IH2). rewrite length_append. lia.
  - intros [H%IH1|H%IH2]; lia.
  - intros (ws & -> & Hws & Hlo & _).
    assert (Forall (fun w => (min_len r' <= String.length w)%nat) ws) as Hall
      by (eapply Forall_impl; [exact Hws | exact IH]).
    apply str_concat_length in Hall. nia.
  - apply IH.
Qed.

Lemma tiled_length (k : nat) pos s ms :
  tiled pos s ms ->
  Forall (fun m => (k <= String.length (Re.m_text m))%nat) ms ->
  (k * length ms <= String.length s)%nat.
Proof.
  induction 1 as [|pos gap m rest ms _ _ IH]; intros Hall; [cbn; lia|].
  apply Forall_cons in Hall as [Hm Hall]. specialize (IH Hall).
  rewrite !length_append. cbn [length]. lia.
Qed.

Lemma catalogue_min_len :
  Forall (fun '(sev, rules) =>
            Forall (fun rule =>
                      forall r g, Re.compile (pi_pattern rule) = Some (r, g) ->
                                  (5 <= min_len r)%nat) rules)
         DANGEROUS_PATTERNS.
Proof.
  assert (forallb (fun '(sev, rules) =>
            forallb (fun rule =>
                       match Re.compile (pi_pattern rule) with
                       | Some (r, _) => (5 <=? min_len r)%nat
                       | None => true
                       end) rules) DANGEROUS_PATTERNS = true) as H
    by (vm_compute; reflexivity).
  rewrite forallb_forall in H. apply Forall_forall.
  intros [sev rules] Hin%list_elem_of_In%H.
  rewrite forallb_forall in Hin. apply Forall_forall.
  intros rule Hr%list_elem_of_In%Hin r g Hc. rewrite Hc in Hr.
  by apply Nat.leb_le.
Qed.

(** Every match of a catalogue pattern has five characters or more, so a
    Finding counts at most a fifth of the length of the text; a text of
    fewer than five characters, the empty one among them, has no
    Finding. *)
Theorem occurrences_bound (findings : gmap string (list finding))
    (sev : string) (f : finding) :
  scan_for_patterns text = Ok findings ->
  f ∈ tier findings sev ->
  (1 <= occurrences f)%nat
  /\ (5 * occurrences f <= String.length text)%nat.
Proof.
  intros Hscan Hf.
  assert (findings = scanned text DANGEROUS_PATTERNS initial_findings) as ->
    by (rewrite scan_for_patterns_scanned in Hscan; congruence).
  apply scanned_elem in Hf as [Hf|(rules & rule & Hcat & Hrule & Hfor)].
  { rewrite tier_initial in Hf. by apply elem_of_nil in Hf. }
  destruct (finding_for_Some text rule f Hfor) as (_ & r & g & Hcomp & Hocc & _).
  pose proof catalogue_min_len as Hmin. rewrite Forall_forall in Hmin.
  specialize (Hmin _ Hcat). cbn in Hmin. rewrite Forall_forall in Hmin.
  specialize (Hmin _ Hrule r g Hcomp).
  rewrite Hocc. split.
  - apply (finding_for_is_Some text rule r g Hcomp). eauto.
  - apply (tiled_length 5 0 text); [apply finditer_tiled|].
    eapply Forall_impl; [apply (scan_lang true r)|].
    intros m Hm%lang_min_len. cbv beta. lia.
Qed.

(** For a rule whose pattern has no group, the sample is the first match:
    a piece of the text that the pattern denotes. *)
Theorem sample_is_first_match (sev : string) (rules : list pattern_info)
    (rule : pattern_info) (r : Re.regex)
    (findings : gmap string (list finding)) (f : finding) :
  (sev, rules) ∈ DANGEROUS_PATTERNS -> rule ∈ rules ->
  Re.compile (pi_pattern rule) = Some (r, 0%nat) ->
  scan_for_patterns text = Ok findings ->
  f ∈ tier findings sev -> name f = pi_name rule ->
  exists pre w post,
    sample f = ItemStr w
    /\ text = pre +:+ w +:+ post
    /\ lang true r w
    /\ first_match true r text = Some w.
Proof.
  intros Hcat Hrule Hcomp Hscan Hin Hname.
  pose proof (sample_of_groupless_rule text sev rules rule r findings f
                Hcat Hrule Hcomp Hscan Hin Hname) as Hs.
  unfold first_match in *.
  destruct (Re.search true r text false 0) as [[m rest]|] eqn:E; [|discriminate].
  injection Hs as Hs.
  pose proof (search_sound true r _ _ _ _ _ E) as Hm.
  apply search_spec in E as (gap & Htext & _).
  by exists gap, (Re.m_text m), rest.
Qed.

End ScannerMore.

(** ** Letter case *)

Section Lowering.

Lemma lower_tables (x : ascii) :
  Re.lower (Re.lower x) = Re.lower x
  /\ Re.is_space (Re.lower x) = Re.is_space x
  /\ Re.is_word (Re.lower x) = Re.is_word x
  /\ Re.is_digit (Re.lower x) = Re.is_digit x
  /\ Ascii.eqb (Re.lower x) "010"%char = Ascii.eqb x "010"%char.
Proof.
  destruct x as [[] [] [] [] [] [] [] []]; vm_compute; repeat split.
Qed.

Lemma char_eq_lower (p x : ascii) :
  Re.char_eq true p (Re.lower x) = Re.char_eq true p x.
Proof. unfold Re.char_eq. by rewrite (proj1 (lower_tables x)). Qed.

Lemma in_set_lower negated items (x : ascii) :
  Re.in_set true negated items (Re.lower x) = Re.in_set true negated items x.
Proof.
  unfold Re.in_set. f_equal.
  induction items as [|it items IH]; [reflexivity|].
  cbn [existsb]. rewrite IH. f_equal.
  destruct (lower_tables x) as (_ & Hs & Hw & Hd & _).
  destruct it; cbn [Re.item_has]; auto using char_eq_lower.
Qed.

Lemma str_lower_length (s : string) :
  String.length (str_lower s) = String.length s.
Proof. induction s as [|x s IH]; [reflexivity|]. cbn. by rewrite IH. Qed.

Lemma str_take_lower (n : nat) : forall s,
  Py.str_take n (str_lower s) = str_lower (Py.str_take n s).
Proof.
  induction n as [|n IH]; intros [|x s]; try reflexivity.
  cbn [str_lower Py.str_take]. by rewrite IH.
Qed.

Lemma consumed_lower (s s' : string) :
  Re.consumed (str_lower s) (str_lower s') = str_lower (Re.consumed s s').
Proof.
  unfold Re.consumed. by rewrite !str_lower_length, str_take_lower.
Qed.

Lemma rep_loop_lower lo hi r' k k'
    (IH : forall s c k k',
        (forall s1 c1, k' (str_lower s1) (caps_lower c1)
                       = lower_result <$> k s1 c1) ->
        Re.run true r' (str_lower s) (caps_lower c) k'
        = lower_result <$> Re.run true r' s c k) :
  (forall s1 c1, k' (str_lower s1) (caps_lower c1) = lower_result <$> k s1 c1) ->
  forall fuel count s c,
    rep_loop true lo hi r' k' fuel count (str_lower s) (caps_lower c)
    = lower_result <$> rep_loop true lo hi r' k fuel count s c.
Proof.
  intros Hk. induction fuel as [|fuel IHf]; intros count s c.
  - cbn [rep_loop]. destruct (lo <=? count)%nat; [apply Hk | reflexivity].
  - cbn [rep_loop]. destruct (Re.under hi count).
    + rewrite (IH s c
        (fun s1 c1 => if (String.length s1 <? String.length s)%nat
                      then rep_loop true lo hi r' k fuel (S count) s1 c1
                      else None)).
      * destruct (Re.run true r' s c _) as [res|]; [reflexivity|].
        cbn [fmap option_fmap option_map].
        destruct (lo <=? count)%nat; [apply Hk | reflexivity].
      * intros s1 c1. cbv beta. rewrite !str_lower_length.
        destruct (String.length s1 <? String.length s)%nat;
          [apply IHf | reflexivity].
    + destruct (lo <=? count)%nat; [apply Hk | reflexivity].
Qed.

(** The matcher that ignores case reads a text and its lower-case copy
    alike. *)
Lemma run_lower (r : Re.regex) : forall s c k k',
  (forall s1 c1, k' (str_lower s1) (caps_lower c1) = lower_result <$> k s1 c1) ->
  Re.run true r (str_lower s) (caps_lower c) k'
  = lower_result <$> Re.run true r s c k.
Proof.
  induction r as [| p | | negated items | r1 IH1 r2 IH2 | r1 IH1 r2 IH2
                  | lo hi r' IH | n r' IH]; intros s c k k' Hk.
  - cbn [Re.run]. apply Hk.
  - cbn [Re.run]. destruct s as [|x s]; [reflexivity|]. cbn [str_lower].
    rewrite char_eq_lower. destruct (Re.char_eq true p x); [apply Hk | reflexivity].
  - cbn [Re.run]. destruct s as [|x s]; [reflexivity|]. cbn [str_lower].
    destruct (lower_tables x) as (_ & _ & _ & _ & ->).
    destruct (Ascii.eqb x "010"); [reflexivity | apply Hk].
  - cbn [Re.run]. destruct s as [|x s]; [reflexivity|]. cbn [str_lower].
    rewrite in_set_lower.
    destruct (Re.in_set true negated items x); [apply Hk | reflexivity].
  - cbn [Re.run]. apply IH1. intros s1 c1. by apply IH2.
  - cbn [Re.run]. rewrite (IH1 s c k k' Hk), (IH2 s c k k' Hk).
    by destruct (Re.run true r1 s c k).
  - rewrite !run_rep, str_lower_length. by apply rep_loop_lower.
  - cbn [Re.run]. apply IH. intros s1 c1. rewrite consumed_lower.
    apply (Hk s1 ((n, Re.consumed s s1) :: c1)).
Qed.

Lemma match_at_lower r s ma :
  Re.match_at true r (str_lower s) ma
  = lower_result <$> Re.match_at true r s ma.
Proof.
  unfold Re.match_at. apply (run_lower r s []). intros s1 c1.
  rewrite !str_lower_length.
  by destruct (ma && (String.length s1 =? String.length s)%nat).
Qed.

Lemma search_step_lower r s ma (pos : nat)
    (next next' : option (Re.match_ * string)) :
  next' = (fun '(m, rest) => (match_lower m, str_lower rest)) <$> next ->
  match Re.match_at true r (str_lower s) ma with
  | Some (s', c') => Some (Re.Match pos (Re.consumed (str_lower s) s') c', s')
  | None => next'
  end
  = (fun '(m, rest) => (match_lower m, str_lower rest))
      <$> match Re.match_at true r s ma with
          | Some (s', c') => Some (Re.Match pos (Re.consumed s s') c', s')
          | None => next
          end.
Proof.
  intros ->. rewrite match_at_lower.
  destruct (Re.match_at true r s ma) as [[s' c']|]; [|reflexivity].
  cbn [fmap option_fmap option_map lower_result fst snd].
  unfold match_lower. cbn [Re.m_start Re.m_text Re.m_groups].
  by rewrite consumed_lower.
Qed.

Lemma search_lower r : forall s ma pos,
  Re.search true r (str_lower s) ma pos
  = (fun '(m, rest) => (match_lower m, str_lower rest))
      <$> Re.search true r s ma pos.
Proof.
  induction s as [|x s IH]; intros ma pos.
  - apply (search_step_lower r EmptyString ma pos None None eq_refl).
  - apply (search_step_lower r (String x s) ma pos _ _ (IH false (S pos))).
Qed.

Lemma scan_lower r : forall fuel s ma pos,
  Re.scan fuel true r (str_lower s) ma pos
  = match_lower <$> Re.scan fuel true r s ma pos.
Proof.
  induction fuel as [|fuel IH]; intros s ma pos; [reflexivity|].
  cbn [Re.scan]. rewrite search_lower.
  destruct (Re.search true r s ma pos) as [[m rest]|]; [|reflexivity].
  cbn [fmap option_fmap option_map list_fmap]. f_equal.
  unfold Re.m_end. cbn [match_lower Re.m_text Re.m_start].
  rewrite str_lower_length. apply IH.
Qed.

Lemma finditer_lower r text :
  Re.finditer true r (str_lower text) = match_lower <$> Re.finditer true r text.
Proof. unfold Re.finditer. rewrite str_lower_length. apply scan_lower. Qed.

Lemma group_lower n (c : Re.caps) :
  Re.group n (caps_lower c) = str_lower <$> Re.group n c.
Proof.
  induction c as [|[n' txt] c IH]; [reflexivity|].
  cbn. destruct (n =? n')%nat; [reflexivity | apply IH].
Qed.

Lemma item_match_lower g m : Re.item g (match_lower m) = item_lower (Re.item g m).
Proof.
  assert (forall n, default EmptyString (Re.group n (caps_lower (Re.m_groups m)))
                    = str_lower (default EmptyString (Re.group n (Re.m_groups m))))
    as Hg by (intros n; rewrite group_lower; by destruct (Re.group n _)).
  unfold Re.item. destruct g as [|[|g]]; cbn [match_lower Re.m_groups Re.m_text item_lower].
  - reflexivity.
  - by rewrite Hg.
  - f_equal. rewrite map_map. apply map_ext. intros n. apply Hg.
Qed.

Lemma finding_for_lower text rule :
  finding_for (str_lower text) rule = finding_lower <$> finding_for text rule.
Proof.
  unfold finding_for.
  destruct (Re.compile (pi_pattern rule)) as [[r g]|]; [|reflexivity].
  rewrite finditer_lower.
  destruct (Re.finditer true r text) as [|m ms]; [reflexivity|].
  cbn [fmap list_fmap option_fmap option_map]. unfold finding_lower.
  cbn [name description occurrences sample length]. f_equal. f_equal.
  - by rewrite length_fmap.
  - apply item_match_lower.
Qed.

Lemma omap_finding_for_lower text (rules : list pattern_info) :
  omap (finding_for (str_lower text)) rules
  = finding_lower <$> omap (finding_for text) rules.
Proof.
  induction rules as [|rule rules IH]; [reflexivity|].
  rewrite !omap_cons, finding_for_lower, IH.
  by destruct (finding_for text rule).
Qed.

Lemma tier_fmap (findings : gmap string (list finding)) (k : string) :
  tier (findings_lower findings) k = finding_lower <$> tier findings k.
Proof. unfold tier, findings_lower. rewrite lookup_fmap. by destruct (findings !! k). Qed.

Lemma scanned_lower text cat : forall findings,
  scanned (str_lower text) cat (findings_lower findings)
  = findings_lower (scanned text cat findings).
Proof.
  induction cat as [|[sev rules] cat IH]; intros findings; [reflexivity|].
  change (scanned ?t ((sev, rules) :: cat) ?fs)
    with (scanned t cat (<[sev := tier fs sev ++ omap (finding_for t) rules]> fs)).
  rewrite <- IH. f_equal.
  rewrite tier_fmap, omap_finding_for_lower, <- fmap_app.
  unfold findings_lower. by rewrite fmap_insert.
Qed.

Lemma halves_lower findings is_verified ownership :
  halves (findings_lower findings) is_verified ownership
  = halves findings is_verified ownership.
Proof. unfold halves. by rewrite !tier_fmap, !length_fmap. Qed.

(** The scan ignores case on texts of code points below 256, the strings
    of this file: the lower-case copy of such a text has the same
    Findings, with the same counts, and their samples in lower case; the
    score and the level computed from them are the same; and two such
    texts that differ in the case of their letters only have the same
    Findings up to the case of the samples. *)
Theorem scan_ignores_case (text : string) :
  scan_for_patterns (str_lower text)
  = (findings ← scan_for_patterns text; Ok (findings_lower findings))
  /\ (forall is_verified ownership,
        (findings ← scan_for_patterns (str_lower text);
         Ok (calculate_risk_score findings is_verified ownership))
        = (findings ← scan_for_patterns text;
           Ok (calculate_risk_score findings is_verified ownership)))
  /\ (forall text' : string,
        str_lower text = str_lower text' ->
        (findings ← scan_for_patterns text; Ok (findings_lower findings))
        = (findings ← scan_for_patterns text'; Ok (findings_lower findings))).
Proof.
  assert (forall t : string,
             scan_for_patterns (str_lower t)
             = (findings ← scan_for_patterns t; Ok (findings_lower findings)))
    as Hscan.
  { intros t. rewrite !scan_for_patterns_scanned, bind_Ok. f_equal.
    rewrite <- scanned_lower. f_equal. }
  split; [apply Hscan|]. split.
  - intros is_verified ownership.
    rewrite Hscan, scan_for_patterns_scanned, !bind_Ok. f_equal.
    by rewrite !risk_closed, halves_lower.
  - intros text' Heq. by rewrite <- !Hscan, Heq.
Qed.

End Lowering.

(** ** What the normaliser raises *)

Section JsonErrors.

Import Json.

Lemma bind_Raise_inv {A B} (m : outcome A) (k : A -> outcome B) (e : exn) :
  m ≫= k = Raise e -> m = Raise e \/ exists a, m = Ok a /\ k a = Raise e.
Proof. destruct m as [a| |]; [eauto | intros [= ->]; by left | discriminate]. Qed.

Lemma scanstring_raises : forall n s e,
  (String.length s <= n)%nat ->
  scanstring s = Raise e -> e = JSONDecodeError.
Proof.
  induction n as [|n IH]; intros s e Hn.
  - destruct s; [by intros [= <-] | cbn in Hn; lia].
  - destruct s as [|c rest]; [by intros [= <-]|]. cbn [String.length] in Hn.
    cbn [scanstring].
    destruct (Ascii.eqb c quote); [discriminate|].
    destruct (Ascii.eqb c backslash).
    + destruct rest as [|x rest']; [by intros [= <-]|].
      cbn [String.length] in *.
      assert (forall x,
                 (scanstring rest' ≫= fun '(str0, tl0) => Ok (String x str0, tl0))
                 = Raise e -> e = JSONDecodeError) as Hlit.
      { intros y [E|([str0 tl0] & _ & E)]%bind_Raise_inv; [|discriminate].
        apply IH in E; [done | lia]. }
      destruct (Ascii.eqb x quote); [apply Hlit|].
      destruct (Ascii.eqb x backslash); [apply Hlit|].
      destruct x as [[] [] [] [] [] [] [] []];
        try (by intros [= <-]); try apply Hlit.
      destruct rest' as [|h1 [|h2 [|h3 [|h4 rest4]]]]; try (by intros [= <-]).
      destruct (hex4 h1 h2 h3 h4) as [v|]; [|by intros [= <-]].
      destruct (v <? 256)%nat; [|discriminate].
      intros [E|([str0 tl0] & _ & E)]%bind_Raise_inv; [|discriminate].
      cbn [String.length] in *. apply IH in E; [done | lia].
    + destruct (nat_of_ascii c <=? 31)%nat; [by intros [= <-]|].
      intros [E|([str0 tl0] & _ & E)]%bind_Raise_inv; [|discriminate].
      apply IH in E; [done | lia].
Qed.

Lemma scan_number_raises s e :
  scan_number s = Raise e -> decoder_error e.
Proof.
  unfold scan_number.
  destruct (match_number s) as [[[lexeme tl] []]|]; try discriminate.
  - intros [= <-]. by right.
  - intros [= <-]. by left.
Qed.

Lemma scan_constant_raises word v s rest e :
  scan_constant word v s rest = Raise e -> decoder_error e.
Proof.
  unfold scan_constant. destruct (Py.startswith word rest); [discriminate|].
  apply scan_number_raises.
Qed.

Lemma opened_raises close rest loop empty e :
  (forall s, loop s = Raise e -> decoder_error e) ->
  opened close rest loop empty = Raise e -> decoder_error e.
Proof.
  intros Hloop. unfold opened.
  destruct (skip_ws rest) as [|c s1]; [apply Hloop|].
  destruct (Ascii.eqb c close); [discriminate | apply Hloop].
Qed.

Lemma closing_raises close s done loop e :
  (forall s', loop s' = Raise e -> decoder_error e) ->
  closing close s done loop = Raise e -> decoder_error e.
Proof.
  intros Hloop. unfold closing.
  destruct (skip_ws s) as [|c s1]; [intros [= <-]; by left|].
  destruct (Ascii.eqb c close); [discriminate|].
  destruct (Ascii.eqb c ","); [apply Hloop | intros [= <-]; by left].
Qed.

(** The decoder raises nothing but [JSONDecodeError] and [ValueError]. *)
Lemma scan_raises (fuel : nat) :
  (forall depth s e,
      scan_once fuel depth s = Raise e -> decoder_error e)
  /\ (forall depth acc s e,
         parse_object fuel depth acc s = Raise e -> decoder_error e)
  /\ (forall depth acc s e,
         parse_array fuel depth acc s = Raise e -> decoder_error e).
Proof.
  induction fuel as [|fuel (IHonce & IHobj & IHarr)];
    [repeat split; intros; discriminate|].
  split; [|split].
  - intros depth [|c rest] e; [intros [= <-]; by left|].
    rewrite scan_once_S. cbv zeta.
    destruct (Ascii.eqb c quote).
    { intros [E|([str tl'] & _ & E)]%bind_Raise_inv; [|discriminate].
      left. by apply (scanstring_raises _ _ _ (Nat.le_refl _)) in E. }
    destruct (Ascii.eqb c "{").
    { destruct (max_depth <=? depth)%nat; [discriminate|].
      rewrite opened_object. apply opened_raises. intros s. apply IHobj. }
    destruct (Ascii.eqb c "[").
    { destruct (max_depth <=? depth)%nat; [discriminate|].
      rewrite opened_array. apply opened_raises. intros s. apply IHarr. }
    repeat (match goal with
            | |- (if ?b then _ else _) = _ -> _ =>
                destruct b; [apply scan_constant_raises|]
            end).
    apply scan_number_raises.
  - intros depth acc [|c rest] e; rewrite parse_object_S;
      [intros [= <-]; by left|].
    destruct (Ascii.eqb c quote); [|intros [= <-]; by left].
    intros [E|([key s1] & _ & H)]%bind_Raise_inv.
    { left. by apply (scanstring_raises _ _ _ (Nat.le_refl _)) in E. }
    unfold member in H.
    destruct (skip_ws s1) as [|c2 s2]; [injection H as <-; by left|].
    destruct (Ascii.eqb c2 ":"); [|injection H as <-; by left].
    apply bind_Raise_inv in H as [E|([val s3] & _ & H)]; [by apply IHonce in E|].
    apply closing_raises in H; [done|]. intros s'. apply IHobj.
  - intros depth acc s e. rewrite parse_array_S.
    intros [E|([val s1] & _ & H)]%bind_Raise_inv; [by apply IHonce in E|].
    apply closing_raises in H; [done|]. intros s'. apply IHarr.
Qed.

Lemma loads_raises (s : string) (e : exn) :
  loads s = Raise e -> decoder_error e.
Proof.
  unfold loads.
  intros [E|([obj tl] & _ & H)]%bind_Raise_inv.
  - by apply (proj1 (scan_raises _)) in E.
  - destruct (skip_ws tl); [discriminate | injection H as <-; by left].
Qed.

Lemma closing_object_value s done loop v tl :
  (exists m, done = JObj m) ->
  (forall s', loop s' = Ok (v, tl) -> exists m, v = JObj m) ->
  closing "}" s done loop = Ok (v, tl) -> exists m, v = JObj m.
Proof.
  intros Hdone Hloop. unfold closing.
  destruct (skip_ws s) as [|c s1]; [discriminate|].
  destruct (Ascii.eqb c "}"); [by intros [= <- _]|].
  destruct (Ascii.eqb c ","); [apply Hloop | discriminate].
Qed.

(** The loop of [_parse_object] returns an object. *)
Lemma parse_object_value (fuel : nat) : forall depth acc s v tl,
  parse_object fuel depth acc s = Ok (v, tl) -> exists m, v = JObj m.
Proof.
  induction fuel as [|fuel IH]; intros depth acc s v tl; [discriminate|].
  rewrite parse_object_S. destruct s as [|c rest]; [discriminate|].
  destruct (Ascii.eqb c quote); [|discriminate].
  intros ([key s1] & _ & H)%bind_Ok_inv. unfold member in H.
  destruct (skip_ws s1) as [|c2 s2]; [discriminate|].
  destruct (Ascii.eqb c2 ":"); [|discriminate].
  apply bind_Ok_inv in H as ([val s3] & _ & H).
  apply closing_object_value in H; [done | eauto | intros s'; apply IH].
Qed.

(** A document whose first character is a brace decodes to an object. *)
Lemma loads_brace_object (tl : string) (j : json) :
  loads (String "{" tl) = Ok j -> exists m, j = JObj m.
Proof.
  unfold loads. cbn [skip_ws is_ws String.length].
  replace (2 * S (String.length tl) + 2)%nat
    with (S (2 * String.length tl + 3)) by lia.
  intros ([obj rest] & E & H)%bind_Ok_inv.
  destruct (skip_ws rest); [|discriminate]. injection H as <-.
  rewrite scan_once_S in E. cbv zeta in E.
  change (Ascii.eqb "{" quote) with false in E.
  change (Ascii.eqb "{" "{") with true in E. cbv iota in E.
  change (max_depth <=? 0)%nat with false in E. cbv iota in E.
  rewrite opened_object in E. unfold opened in E.
  destruct (skip_ws tl) as [|c s1]; [by apply parse_object_value in E|].
  destruct (Ascii.eqb c "}"); [injection E as <- _; eauto|].
  by apply parse_object_value in E.
Qed.

End JsonErrors.

Section NormaliserErrors.

Lemma strip_ends_brace (tl : string) :
  Py.str_strip_ends (String "{" (String "{" tl)) = EmptyString
  \/ exists tl', Py.str_strip_ends (String "{" (String "{" tl)) = String "{" tl'.
Proof.
  unfold Py.str_strip_ends. cbn [String.length Py.str_drop Nat.sub].
  rewrite Nat.sub_0_r.
  destruct (String.length tl) as [|n]; [by left|]. right. cbn [Py.str_take]. eauto.
Qed.

Lemma loads_empty : Json.loads EmptyString = Raise JSONDecodeError.
Proof. reflexivity. Qed.

(** What a detected wrapper decodes to is an object: [source_json.get]
    is always there. *)
Lemma wrapper_decodes_object (source_code : string) (j : Json.json) :
  wrapper_decodes source_code (Ok j) -> exists members, j = Json.JObj members.
Proof.
  intros [[Hb Hl]|(_ & Hb & Hl)].
  - destruct source_code as [|c1 [|c2 tl]]; try discriminate.
    cbn [Py.startswith] in Hb.
    destruct (Ascii.eqb_spec "{" c1) as [<-|]; [|discriminate].
    destruct (Ascii.eqb_spec "{" c2) as [<-|]; [|discriminate].
    destruct (strip_ends_brace tl) as [E|[tl' E]]; rewrite E in Hl.
    + rewrite loads_empty in Hl. discriminate.
    + by apply loads_brace_object in Hl.
  - destruct (startswith_brace _ Hb) as [tl ->]. by apply loads_brace_object in Hl.
Qed.

Lemma wrapper_decodes_fun (source_code : string) (v v' : outcome Json.json) :
  wrapper_decodes source_code v -> wrapper_decodes source_code v' -> v = v'.
Proof. intros [[H1 <-]|(H1 & H2 & <-)] [[H1' <-]|(H1' & H2' & <-)]; congruence. Qed.

Lemma wrapper_decodes_total (source_code : string) :
  Py.startswith "{" source_code = true ->
  exists v, wrapper_decodes source_code v.
Proof.
  intros Hb. destruct (Py.startswith "{{" source_code) eqn:E.
  - eexists. left. eauto.
  - eexists. right. eauto.
Qed.

Lemma mapM_content_items (l : list Json.json) :
  (Forall (fun file => is_record file = true) l
   /\ exists items, mapM content_item l = Ok items
                    /\ Forall2 (fun file item => content_item file = Ok item)
                               l items)
  \/ ((exists file, file ∈ l /\ is_record file = false)
      /\ mapM content_item l = Raise AttributeError).
Proof.
  induction l as [|x l IH]; [left; split; [constructor|]; by exists []|].
  cbn [mapM]. destruct x as [| b | lex | s | items | m];
    try (right; split; [eexists; split; [apply list_elem_of_here | done] | done]).
  cbn [content_item]. destruct IH as [(Hall & items & -> & Hitems)|([file [Hin Hf]] & ->)].
  - left. split; [by constructor|]. eexists. split; [reflexivity|].
    by constructor.
  - right. split; [|reflexivity]. exists file. split; [by apply list_elem_of_further | done].
Qed.

Lemma mapM_text_items (l : list Json.json) :
  (exists texts, mapM text_item l = Ok texts /\ l = Json.JStr <$> texts)
  \/ ((exists item, item ∈ l /\ is_text item = false)
      /\ mapM text_item l = Raise TypeError).
Proof.
  induction l as [|x l IH]; [left; by exists []|].
  cbn [mapM]. destruct x as [| b | lex | s | items | m];
    try (right; split; [eexists; split; [apply list_elem_of_here | done] | done]).
  cbn [text_item]. destruct IH as [(texts & -> & ->)|([item [Hin Hf]] & ->)].
  - left. by exists (s :: texts).
  - right. split; [|reflexivity]. exists item. split; [by apply list_elem_of_further | done].
Qed.

Lemma join_sources_unfold members :
  join_sources (Json.JObj members)
  = match default (Json.JObj []) (Json.dict_get "sources" members) with
    | Json.JObj sources =>
        items ← mapM content_item (Json.values sources);
        texts ← mapM text_item items;
        Ok (Py.join newline texts)
    | _ => Raise AttributeError
    end.
Proof. reflexivity. Qed.

Lemma content_items_text (l items : list Json.json) (item : Json.json) :
  Forall2 (fun file item => content_item file = Ok item) l items ->
  item ∈ items -> is_text item = false ->
  exists m v, Json.JObj m ∈ l /\ Json.dict_get "content" m = Some v
              /\ is_text v = false.
Proof.
  induction 1 as [|file it l items Hfile _ IH]; intros Hin Ht.
  - by apply elem_of_nil in Hin.
  - apply elem_of_cons in Hin as [->|Hin].
    + destruct file as [| | | | |m]; try discriminate. injection Hfile as <-.
      destruct (Json.dict_get "content" m) as [v|] eqn:E; [|discriminate].
      exists m, v. split; [apply list_elem_of_here | done].
    + destruct (IH Hin Ht) as (m & v & H1 & H2).
      exists m, v. split; [by apply list_elem_of_further | done].
Qed.

Lemma content_items_of (l items : list Json.json) (m : list (string * Json.json))
    (v : Json.json) :
  Forall2 (fun file item => content_item file = Ok item) l items ->
  Json.JObj m ∈ l -> Json.dict_get "content" m = Some v -> v ∈ items.
Proof.
  induction 1 as [|file it l items Hfile _ IH]; intros Hin Hv.
  - by apply elem_of_nil in Hin.
  - apply elem_of_cons in Hin as [<-|Hin].
    + cbn [content_item] in Hfile. rewrite Hv in Hfile. injection Hfile as <-.
      apply list_elem_of_here.
    + apply list_elem_of_further. by apply IH.
Qed.

(** What [join_sources] does on each shape of an object. *)
Lemma join_sources_cases members :
  (attribute_shape members /\ join_sources (Json.JObj members) = Raise AttributeError)
  \/ (type_shape members /\ join_sources (Json.JObj members) = Raise TypeError)
  \/ (~ attribute_shape members /\ ~ type_shape members
      /\ exists text, join_sources (Json.JObj members) = Ok text).
Proof.
  rewrite join_sources_unfold. unfold attribute_shape, type_shape.
  destruct (Json.dict_get "sources" members) as [v|] eqn:Es.
  2:{ right. right. cbn. split; [|split]; [| |eauto].
      - by intros (v & [=] & _).
      - by intros (sources & [=] & _). }
  cbn [default from_option id].
  destruct v as [| b | lex | s | items | sources];
    try (left; split; [by eexists | reflexivity]).
  destruct (mapM_content_items (Json.values sources))
    as [(Hall & items & -> & Hitems)|(Hfile & ->)].
  2:{ left. split; [by eexists | reflexivity]. }
  right. cbn [mbind outcome_bind bind].
  destruct (mapM_text_items items) as [(texts & -> & ->)|([item [Hin Hf]] & ->)].
  - right. split; [|split]; [| |cbn; eauto].
    + intros (v & [= <-] & file & Hin & Hf).
      rewrite Forall_forall in Hall. specialize (Hall _ Hin). congruence.
    + intros (sources' & [= <-] & _ & m & v & Hin & Hv & Ht).
      pose proof (content_items_of _ _ _ _ Hitems Hin Hv) as Hv'.
      apply list_elem_of_fmap in Hv' as (t & -> & _). discriminate.
  - left. split; [|reflexivity]. exists sources. split; [done|]. split; [done|].
    by apply (content_items_text _ _ _ Hitems Hin).
Qed.

Lemma shapes_disjoint members : attribute_shape members -> type_shape members -> False.
Proof.
  intros (v & Hv & H) (sources & Hs & Hall & _). rewrite Hv in Hs.
  injection Hs as ->. destruct H as (file & Hin & Hf).
  rewrite Forall_forall in Hall. specialize (Hall _ Hin). congruence.
Qed.

(** What leaves the normaliser. *)
Lemma normalize_raises (source_code : string) (e : exn) :
  normalize_source source_code = Raise e ->
  (exists members,
      wrapper_decodes source_code (Ok (Json.JObj members))
      /\ ((e = AttributeError /\ attribute_shape members)
          \/ (e = TypeError /\ type_shape members)))
  \/ (e = ValueError /\ wrapper_decodes source_code (Raise ValueError)).
Proof.
  intros Hn.
  destruct (Py.startswith "{" source_code) eqn:Hb.
  2:{ rewrite normalize_plain in Hn by done. discriminate. }
  destruct (wrapper_decodes_total _ Hb) as [v Hw].
  rewrite (normalize_wrapper _ _ Hw) in Hn.
  destruct v as [j|e'|]; [| |discriminate].
  - left. destruct (wrapper_decodes_object _ _ Hw) as [members ->].
    exists members. split; [done|].
    destruct (join_sources_cases members) as [[Hs He]|[[Hs He]|(_ & _ & text & He)]];
      rewrite He in Hn; [left | right | discriminate];
      by injection Hn as <-.
  - assert (decoder_error e') as [->| ->].
    { destruct Hw as [[_ Hl]|(_ & _ & Hl)]; by apply loads_raises in Hl. }
    + discriminate.
    + injection Hn as <-. by right.
Qed.

(** The normaliser is outside the embedding exactly when the decoder
    is. *)
Lemma normalize_beyond (source_code : string) :
  normalize_source source_code = Beyond <-> wrapper_decodes source_code Beyond.
Proof.
  split.
  - intros Hn.
    destruct (Py.startswith "{" source_code) eqn:Hb.
    2:{ rewrite normalize_plain in Hn by done. discriminate. }
    destruct (wrapper_decodes_total _ Hb) as [v Hw].
    rewrite (normalize_wrapper _ _ Hw) in Hn.
    destruct v as [j|e'|]; [| |done].
    + destruct (wrapper_decodes_object _ _ Hw) as [members ->].
      destruct (join_sources_cases members)
        as [[_ He]|[[_ He]|(_ & _ & text & He)]];
        rewrite He in Hn; discriminate.
    + by destruct e'.
  - intros Hw. by rewrite (normalize_wrapper _ _ Hw).
Qed.

End NormaliserErrors.

(** Three exceptions leave the normaliser: [AttributeError] exactly when
    the wrapper decodes to an object whose [sources] is no object or has
    a file that is no record, [TypeError] exactly when every file is a
    record and one has a [content] that is no string, and [ValueError]
    exactly when the decoder raises it, which the clause
    [except json.JSONDecodeError] does not catch.  [JSONDecodeError]
    never leaves it.  What the decoder returns on a detected wrapper is
    an object, so that [source_json.get] is always there.  This is said
    of the documents the decoder of this file covers; the normaliser
    answers [Beyond] exactly on the others, of which nothing is said:
    there a [RecursionError] of the decoder can leave it as well. *)
Theorem normalizer_exceptions (source_code : string) :
  (forall e, normalize_source source_code = Raise e ->
             e = AttributeError \/ e = TypeError \/ e = ValueError)
  /\ (normalize_source source_code = Raise AttributeError
      <-> exists members,
            wrapper_decodes source_code (Ok (Json.JObj members))
            /\ attribute_shape members)
  /\ (normalize_source source_code = Raise TypeError
      <-> exists members,
            wrapper_decodes source_code (Ok (Json.JObj members))
            /\ type_shape members)
  /\ (normalize_source source_code = Raise ValueError
      <-> wrapper_decodes source_code (Raise ValueError))
  /\ (normalize_source source_code = Beyond
      <-> wrapper_decodes source_code Beyond)
  /\ (forall j, wrapper_decodes source_code (Ok j) ->
                exists members, j = Json.JObj members).
Proof.
  split; [|split; [|split; [|split; [|split]]]];
    [| | | |apply normalize_beyond|apply wrapper_decodes_object].
  - intros e [(members & _ & [[-> _]|[-> _]])|[-> _]]%normalize_raises; eauto.
  - split.
    + intros [(members & Hw & [[_ Hs]|[[=] _]])|[[=] _]]%normalize_raises. eauto.
    + intros (members & Hw & Hs). rewrite (normalize_wrapper _ _ Hw).
      destruct (join_sources_cases members) as [[_ He]|[[Hs' _]|(Hs' & _)]];
        [done | | done].
      destruct (shapes_disjoint _ Hs Hs').
  - split.
    + intros [(members & Hw & [[[=] _]|[_ Hs]])|[[=] _]]%normalize_raises. eauto.
    + intros (members & Hw & Hs). rewrite (normalize_wrapper _ _ Hw).
      destruct (join_sources_cases members) as [[Hs' _]|[[_ He]|(_ & Hs' & _)]];
        [ | done | done].
      destruct (shapes_disjoint _ Hs' Hs).
  - split.
    + by intros [(members & _ & [[[=] _]|[[=] _]])|[_ Hw]]%normalize_raises.
    + intros Hw. by rewrite (normalize_wrapper _ _ Hw).
Qed.

(** Wrappers on which the script stops: [sources] is a list, a file is a
    string (even beside a file whose content is a number), a content is a
    number. *)
Example wrappers_that_raise :
  normalize_source ("{" +:+ dq "sources" +:+ ":[]}") = Raise AttributeError
  /\ normalize_source ("{" +:+ dq "sources" +:+ ":{" +:+ dq "A.sol" +:+ ":{"
                           +:+ dq "content" +:+ ":1}," +:+ dq "B.sol" +:+ ":"
                           +:+ dq "x" +:+ "}}") = Raise AttributeError
  /\ normalize_source ("{{" +:+ dq "sources" +:+ ":{" +:+ dq "A.sol" +:+ ":{"
                            +:+ dq "content" +:+ ":1}}}}") = Raise TypeError.
Proof. vm_compute. repeat split. Qed.

(** ** The run of the script *)

Section Pipeline.

(** [fetch_contract_source] reports a contract verified exactly when the
    source it returns is not empty. *)
Lemma fetch_verified_truthy data is_verified source_code contract_name :
  fetch_contract_source data = Ok (is_verified, source_code, contract_name) ->
  is_verified = Py.str_truthy source_code.
Proof.
  unfold fetch_contract_source.
  destruct (default [] (source_result data)) as [|result rest]; [by intros [= <- <- _]|].
  destruct (status_is_1 (source_status data)); [|by intros [= <- <- _]].
  cbv zeta. intros (src & _ & [= <- <- _])%bind_Ok_inv. reflexivity.
Qed.

Lemma fetch_failure data :
  failure_reply data -> fetch_contract_source data = Ok (false, "", "").
Proof.
  unfold fetch_contract_source. intros [H| ->]; [|reflexivity].
  destruct (default [] (source_result data)); [reflexivity|].
  destruct (status_is_1 (source_status data)) eqn:E; [|reflexivity].
  by apply status_is_1_true in E.
Qed.



Lemma main_unfold token chain source_data logs_data :
  main token chain source_data logs_data
  = fetch_contract_source source_data ≫= fun '(is_verified, source_code, contract_name) =>
      (if Py.str_truthy source_code then scan_for_patterns source_code else Ok ∅)
        ≫= fun findings =>
          let ownership := check_ownership_status logs_data in
          Ok (ScanResult token chain contract_name is_verified ownership findings
                (calculate_risk_score findings is_verified ownership).1
                (calculate_risk_score findings is_verified ownership).2).
Proof.
  unfold main. generalize (fetch_contract_source source_data).
  intros [[[v src] name]| |]; cbn [mbind outcome_bind bind]; [|reflexivity..].
  generalize (if Py.str_truthy src then scan_for_patterns src else Ok ∅).
  intros [findings| |]; cbn [mbind outcome_bind bind]; [|reflexivity..].
  cbv zeta.
  generalize (calculate_risk_score findings v (check_ownership_status logs_data)).
  by intros [score level].
Qed.

Lemma scan_step_Ok source_code :
  exists findings,
    (if Py.str_truthy source_code then scan_for_patterns source_code else Ok ∅)
    = Ok findings
    /\ findings = if Py.str_truthy source_code
                  then scanned source_code DANGEROUS_PATTERNS initial_findings
                  else ∅.
Proof.
  destruct (Py.str_truthy source_code); [|by exists ∅].
  eexists. split; [apply scan_for_patterns_scanned | reflexivity].
Qed.

Lemma halves_empty is_verified ownership :
  halves ∅ is_verified ownership = base2 is_verified (renounced ownership).
Proof. unfold halves, tier. rewrite !lookup_empty. cbn. lia. Qed.

End Pipeline.

(** The report of a run.  The dict of findings is empty exactly when the
    contract counts as unverified, and then the score is 4 with a
    renounced ownership and 6 without: the levels Medium and High.  For a
    verified contract the dict has the four severities, and the score and
    the level are those of the aggregator on the parts of the report. *)
Theorem main_report (token chain : string) (source_data : source_reply)
    (logs_data : logs_reply) (res : scan_result) :
  main token chain source_data logs_data = Ok res ->
  res_ownership res = check_ownership_status logs_data
  /\ (res_risk_score res, res_risk_level res)
     = calculate_risk_score (res_findings res) (res_is_verified res)
                            (res_ownership res)
  /\ (res_is_verified res = false ->
      res_findings res = ∅
      /\ res_risk_score res = (if renounced (res_ownership res) then 4 else 6)
      /\ res_risk_level res
         = (if renounced (res_ownership res) then "Medium" else "High"))
  /\ (res_is_verified res = true ->
      forall k, is_Some (res_findings res !! k) <-> k ∈ severities).
Proof.
  rewrite main_unfold.
  intros ([[v src] name] & Hfetch & H)%bind_Ok_inv.
  apply fetch_verified_truthy in Hfetch as ->.
  destruct (scan_step_Ok src) as (findings & Hscan & Hfindings).
  rewrite Hscan in H. cbn [mbind outcome_bind bind] in H. cbv zeta in H.
  set (ownership := check_ownership_status logs_data) in *.
  set (risk := calculate_risk_score findings (Py.str_truthy src) ownership) in *.
  assert (res = ScanResult token chain name (Py.str_truthy src) ownership
                  findings risk.1 risk.2) as -> by congruence.
  clear H.
  cbn [res_ownership res_risk_score res_risk_level res_findings res_is_verified].
  split; [reflexivity|]. split; [symmetry; apply surjective_pairing|].
  split.
  - intros Hv. rewrite Hv in Hfindings. subst findings. split; [reflexivity|].
    subst risk. rewrite Hv, risk_closed, halves_empty. cbv zeta. cbn [fst snd].
    by destruct (renounced ownership).
  - intros Hv. rewrite Hv in Hfindings. subst findings. apply scanned_keys.
Qed.


(** The chains [main] accepts are the keys of [CHAIN_APIS]: on them
    [get_api_key] returns, the empty string when the variable of the chain
    is not set, and on any other name it raises [KeyError].  The key of a
    chain depends on no variable but its own. *)
Theorem get_api_key_chains (environ : gmap string string) (chain : string) :
  (chain ∈ chain_choices <-> exists key, get_api_key environ chain = Ok key)
  /\ (chain ∉ chain_choices <-> get_api_key environ chain = Raise KeyError)
  /\ (chain ∈ chain_choices -> get_api_key ∅ chain = Ok "")
  /\ (forall var value api,
        Json.dict_get chain CHAIN_APIS = Some api -> var <> api_key_env api ->
        get_api_key (<[var := value]> environ) chain = get_api_key environ chain)
  /\ (forall api value,
        Json.dict_get chain CHAIN_APIS = Some api ->
        get_api_key (<[api_key_env api := value]> environ) chain = Ok value).
Proof.
  assert (chain ∈ chain_choices
          <-> is_Some (Json.dict_get chain CHAIN_APIS)) as Hkeys.
  { unfold chain_choices. rewrite !elem_of_cons, elem_of_nil.
    unfold CHAIN_APIS. cbn [Json.dict_get].
    destruct (String.eqb_spec chain "eth") as [->|];
      [split; [eauto | by left]|].
    destruct (String.eqb_spec chain "bsc") as [->|];
      [split; [eauto | right; by left]|].
    destruct (String.eqb_spec chain "polygon") as [->|];
      [split; [eauto | right; right; by left]|].
    split; [intros [->|[->|[->|[]]]]; congruence | by intros [? [=]]]. }
  unfold get_api_key.
  split; [|split; [|split; [|split]]].
  - rewrite Hkeys. destruct (Json.dict_get chain CHAIN_APIS); split;
      eauto; try by intros [? [=]].
  - rewrite Hkeys. destruct (Json.dict_get chain CHAIN_APIS); split;
      try done; try (by intros []); eauto.
  - intros [api ->]%Hkeys. by rewrite lookup_empty.
  - intros var value api -> Hne. by rewrite lookup_insert_ne.
  - intros api value ->. by rewrite lookup_insert_eq.
Qed.

(** What [fetch_contract_source] returns.  The flag is the truth value of
    the source, so an unverified contract has the empty source; a failure
    reply gives the triple [(False, "", "")], with an empty name; of the
    list of results only the first entry is read; a source that does not
    start with a brace is returned as it is, under the name of the entry
    or ["Unknown"]. *)
Theorem fetch_contract_source_result (data : source_reply) :
  (forall is_verified source_code contract_name,
      fetch_contract_source data = Ok (is_verified, source_code, contract_name) ->
      is_verified = Py.str_truthy source_code
      /\ (is_verified = false -> source_code = ""))
  /\ (failure_reply data -> fetch_contract_source data = Ok (false, "", ""))
  /\ (forall entry others,
        source_result data = Some (entry :: others) ->
        fetch_contract_source data
        = fetch_contract_source (SourceReply (source_status data) (Some [entry])))
  /\ (forall entry others text,
        source_status data = Some "1" ->
        source_result data = Some (entry :: others) ->
        SourceCode entry = Some text ->
        Py.startswith "{" text = false ->
        fetch_contract_source data
        = Ok (Py.str_truthy text, text, default "Unknown" (ContractName entry))).
Proof.
  split; [|split; [|split]].
  - intros v src name H. apply fetch_verified_truthy in H as ->.
    split; [reflexivity|]. by destruct src.
  - apply fetch_failure.
  - intros entry others Hr. unfold fetch_contract_source. by rewrite Hr.
  - intros entry others text Hs Hr Hc Hb. unfold fetch_contract_source.
    rewrite Hr, Hs. cbn [default from_option id status_is_1].
    change (String.eqb "1" "1") with true. cbv iota zeta.
    rewrite Hc. cbn [default from_option id].
    by rewrite (normalize_plain _ Hb).
Qed.

(** ** A decoder error that is not caught *)

(** C5, at an input where the code departs from it.  A detected wrapper
    that is no JSON document, [{"a":] followed by 4301 digits and never
    closed: the decoder raises [ValueError] at the integer, the clause
    [except json.JSONDecodeError] does not catch it, and the exception
    leaves the normaliser, [fetch_contract_source] and [main], where the
    claim has the text returned as it is.  With 4300 digits the same text
    is returned as it is.  A well-formed wrapper of one file beside such
    an integer stops the run as well, where the claim has the content of
    the file. *)
Theorem long_integer_aborts_normalizer :
  let text := unclosed_wrapper long_integer in
  let shorter := unclosed_wrapper (Py.str_repeat "1" Json.max_int_digits) in
  let well_formed :=
    "{" +:+ dq "sources" +:+ ":{" +:+ dq "A.sol" +:+ ":{" +:+ dq "content"
        +:+ ":" +:+ dq "X" +:+ "}}," +:+ dq "n" +:+ ":" +:+ long_integer
        +:+ "}" in
  Py.startswith "{" text = true
  /\ Json.loads text = Raise ValueError
  /\ normalize_source text = Raise ValueError
  /\ fetch_contract_source (reply_with text) = Raise ValueError
  /\ (forall token chain logs_data,
        main token chain (reply_with text) logs_data = Raise ValueError)
  /\ Json.loads shorter = Raise JSONDecodeError
  /\ normalize_source shorter = Ok shorter
  /\ normalize_source well_formed = Raise ValueError
  /\ normalize_source ("{" +:+ well_formed +:+ "}") = Raise ValueError.
Proof.
  intros text shorter well_formed.
  assert (fetch_contract_source (reply_with text) = Raise ValueError) as Hfetch
    by (vm_compute; reflexivity).
  split; [reflexivity|]. split; [vm_compute; reflexivity|].
  split; [vm_compute; reflexivity|]. split; [exact Hfetch|].
  split; [intros token chain logs_data; by rewrite main_unfold, Hfetch|].
  split; [vm_compute; reflexivity|]. split; [vm_compute; reflexivity|].
  split; vm_compute; reflexivity.
Qed.

(** ** Instances *)

(** Two dicts that differ in a sample and in the info list, and two
    ownerships that differ in the owner. *)
Lemma score_reads_three_lengths_witness :
  let a := Finding "Self-Destruct" "d" 1 (ItemStr "selfdestruct(") in
  let b := Finding "Delegatecall" "d" 2 (ItemStr ".delegatecall(") in
  calculate_risk_score (<["critical" := [a]]> ∅) true
    (OwnershipInfo false "Unknown" 0)
  = calculate_risk_score (<["info" := [a]]> (<["critical" := [b]]> ∅)) true
      (OwnershipInfo false "0xab" 3).
Proof.
  intros a b.
  apply (score_reads_three_lengths (<["critical" := [a]]> ∅)
           (<["info" := [a]]> (<["critical" := [b]]> ∅)) true
           (OwnershipInfo false "Unknown" 0) (OwnershipInfo false "0xab" 3)
           eq_refl).
  intros k Hk.
  repeat (apply elem_of_cons in Hk as [->|Hk]; [reflexivity|]).
  by apply elem_of_nil in Hk.
Defined.

(** A text with a delegate call before a destructive call: the Findings
    come in the order of the catalogue. *)
Lemma findings_in_catalogue_order_witness :
  let text := "x.delegatecall(y); selfdestruct(owner)" in
  let rules := default [] (snd <$> head DANGEROUS_PATTERNS) in
  exists findings,
    scan_for_patterns text = Ok findings
    /\ finding_label <$> tier findings "critical"
       `sublist_of` rule_label <$> rules
    /\ (length (tier findings "critical") <= 5)%nat
    /\ NoDup (name <$> tier findings "critical").
Proof.
  intros text rules.
  exists (scanned text DANGEROUS_PATTERNS initial_findings).
  split; [apply scan_for_patterns_scanned|].
  apply (findings_in_catalogue_order text "critical" rules).
  - apply list_elem_of_here.
  - apply scan_for_patterns_scanned.
Defined.

(** Two destructive calls in a text of 32 characters. *)
Lemma occurrences_bound_witness :
  let text := "selfdestruct(owner); suicide (x)" in
  let f := Finding "Self-Destruct"
             "Contract can be destroyed, potentially stealing funds"
             2 (ItemStr "selfdestruct(") in
  (1 <= occurrences f)%nat /\ (5 * occurrences f <= String.length text)%nat.
Proof.
  intros text f.
  apply (occurrences_bound text
           (scanned text DANGEROUS_PATTERNS initial_findings) "critical" f).
  - apply scan_for_patterns_scanned.
  - assert (tier (scanned text DANGEROUS_PATTERNS initial_findings) "critical"
            = [f]) as -> by (vm_compute; reflexivity).
    apply list_elem_of_here.
Defined.

(** The sample of a destructive call. *)
Lemma sample_is_first_match_witness :
  let text := "function kill() { selfdestruct(owner); }" in
  let rule := PatternInfo "Self-Destruct" "selfdestruct\s*\(|suicide\s*\("
                "Contract can be destroyed, potentially stealing funds" in
  let r := default Re.Empty (fst <$> Re.compile (pi_pattern rule)) in
  let f := Finding "Self-Destruct"
             "Contract can be destroyed, potentially stealing funds"
             1 (ItemStr "selfdestruct(") in
  exists pre w post,
    sample f = ItemStr w
    /\ text = pre +:+ w +:+ post
    /\ lang true r w
    /\ first_match true r text = Some w.
Proof.
  intros text rule r f.
  apply (sample_is_first_match text "critical"
           (default [] (snd <$> head DANGEROUS_PATTERNS)) rule r
           (scanned text DANGEROUS_PATTERNS initial_findings) f).
  - apply list_elem_of_here.
  - do 3 apply list_elem_of_further. apply list_elem_of_here.
  - vm_compute. reflexivity.
  - apply scan_for_patterns_scanned.
  - assert (tier (scanned text DANGEROUS_PATTERNS initial_findings) "critical"
            = [f]) as -> by (vm_compute; reflexivity).
    apply list_elem_of_here.
  - reflexivity.
Defined.

(** A failure reply to the source request, and a renounced ownership. *)
Lemma main_report_witness :
  let logs := single_event [transfer_signature; address_topic "ab"; zero_topic] in
  let res := ScanResult "0xab" "eth" "" false (check_ownership_status logs)
               ∅ 4 "Medium" in
  main "0xab" "eth" (SourceReply (Some "0") None) logs = Ok res
  /\ res_findings res = ∅
  /\ res_risk_score res = 4
  /\ res_risk_level res = "Medium".
Proof.
  intros logs res.
  assert (main "0xab" "eth" (SourceReply (Some "0") None) logs = Ok res) as Hmain
    by reflexivity.
  split; [exact Hmain|].
  exact (proj1 (proj2 (proj2 (main_report "0xab" "eth"
           (SourceReply (Some "0") None) logs res Hmain))) eq_refl).
Defined.
